(** * hypr-claw helper scripts: a shallow embedding and its properties

    The repository holds three independent Python scripts:
    - [happy/fibonacci.py]: an interactive Fibonacci series generator;
    - [add_json_imports.py]: inserts [use serde_json::json;] after the last
      [use] statement of a fixed list of Rust files;
    - [update_tool_registry_mocks.py]: injects a [get_tool_schemas] method
      after every [get_active_tools] mock of the same list of files.

    Python integers are unbounded, hence [Z]; a Python [str] is a sequence of
    Unicode code points, hence [list N]; dictionaries of files are [gmap]s. *)

From Stdlib Require Import ZArith NArith Ascii String DecimalString.
From stdpp Require Import gmap strings list.

(** ** The Fibonacci generator ([happy/fibonacci.py]) *)

Module Fibonacci.

Local Open Scope Z_scope.

(** [l[i]] on a Python list: a negative index counts from the end, and an
    index out of range raises IndexError, here [None]. *)
Definition py_index (l : list Z) (i : Z) : option Z :=
  let len := Z.of_nat (length l) in
  let j := if i <? 0 then i + len else i in
  if (0 <=? j) && (j <? len) then l !! Z.to_nat j else None.

(** [range(a, b)]: the integers [a], [a+1], ..., [b-1]; empty when [b <= a]. *)
Definition py_range (a b : Z) : list Z :=
  (fun k : nat => a + Z.of_nat k) <$> seq 0 (Z.to_nat (b - a)).

(** The body of the [for] loop, lines 26-27. *)
Definition loop_body (i : Z) (fib_series : list Z) : option (list Z) :=
  x ← py_index fib_series (i - 1);
  y ← py_index fib_series (i - 2);
  let next_num := x + y in
  Some (fib_series ++ [next_num]).

(** [for i in idx: body], threading the list being appended to. *)
Fixpoint for_each (idx : list Z) (fib_series : list Z) : option (list Z) :=
  match idx with
  | [] => Some fib_series
  | i :: idx' => loop_body i fib_series ≫= for_each idx'
  end.

Definition fibonacci (n : Z) : option (list Z) :=
  if n <=? 0 then Some []
  else if n =? 1 then Some [0]
  else if n =? 2 then Some [0; 1]
  else for_each (py_range 2 n) [0; 1].

(** *** The console program *)

Local Open Scope string_scope.
Local Open Scope list_scope.
Local Open Scope Z_scope.

(** The exceptions [main] can meet. Only [ValueError] has a handler. *)
Inductive exn := ValueError | IndexError | EOFError.

(** The decimal form of an [int]: digits, with a minus sign when negative.
    It is what [str(n)] gives when it gives a text; [str] and [repr] raise
    ValueError on an [int] longer than the limit in force, which
    [str_checked] and [repr_list_checked] below take into account. *)
Definition py_str (n : Z) : string := NilZero.string_of_int (Z.to_int n).

(** [s * k] on strings. *)
Fixpoint str_mul (s : string) (k : nat) : string :=
  match k with
  | O => ""
  | S k' => s +:+ str_mul s k'
  end.

(** [repr] of a list of integers, as [print(result)] shows it. *)
Fixpoint py_join (sep : string) (ss : list string) : string :=
  match ss with
  | [] => ""
  | [x] => x
  | x :: ss' => x +:+ sep +:+ py_join sep ss'
  end.

Definition py_repr_list (l : list Z) : string :=
  "[" +:+ py_join ", " (py_str <$> l) +:+ "]".

Definition banner : list string :=
  ["Fibonacci Series Generator"; str_mul "=" 30].
Definition prompt : string :=
  "Enter the number of Fibonacci numbers to generate: ".
Definition msg_negative : string := "Please enter a non-negative number.".
Definition msg_invalid : string := "Please enter a valid integer.".
Definition msg_first (n : Z) : string :=
  String "010"%char ("First " +:+ py_str n +:+ " Fibonacci numbers:").

Section Main.

(** What [sys.get_int_max_str_digits()] gives: the longest decimal form an
    [int] may have when it is turned into text, 4300 unless set otherwise
    (a setting is 0 or at least 640), and 0 when there is no limit (as in
    Python before 3.11). Turning a longer [int] into text raises
    ValueError. *)
Variable max_str_digits : nat.

(** The builtin [int] applied to a line of text: [None] stands for
    ValueError. The model of [main] is parametric in it. *)
Variable py_int : string -> option Z.

(** [x] has at most [max_str_digits] decimal digits, or there is no limit. *)
Definition fits (x : Z) : bool :=
  (max_str_digits =? 0)%nat || (Z.abs x <? 10 ^ Z.of_nat max_str_digits).

(** [str(x)] as the f-string of line 44 needs it, and [repr] of a list as
    [print(result)] needs it: [None] stands for ValueError. *)
Definition str_checked (x : Z) : option string :=
  if fits x then Some (py_str x) else None.

Definition repr_list_checked (l : list Z) : option string :=
  if forallb fits l then Some (py_repr_list l) else None.

(** [main], run on the line [input] reads ([None]: end of input). The result
    is what was written to standard output, one entry per [print] call or
    prompt, and the exception that ended the run, if any. A ValueError
    raised anywhere under [try], by [int] or while a number is turned into
    text, is answered by the handler of line 47. *)
Definition main (stdin : option string) : list string * option exn :=
  let out := banner ++ [prompt] in
  match stdin with
  | None => (out, Some EOFError)
  | Some line =>
      match py_int line with
      | None => (out ++ [msg_invalid], None)
      | Some n =>
          if n <? 0 then (out ++ [msg_negative], None)
          else
            match fibonacci n with
            | None => (out, Some IndexError)
            | Some result =>
                match str_checked n with
                | None => (out ++ [msg_invalid], None)
                | Some _ =>
                    match repr_list_checked result with
                    | None => (out ++ [msg_first n; msg_invalid], None)
                    | Some shown => (out ++ [msg_first n; shown], None)
                    end
                end
            end
      end
  end.

End Main.

(** A decimal reader for signed integers, a sample instance of [int]. *)
Definition decimal_int (s : string) : option Z :=
  Z.of_int <$> NilZero.int_of_string s.

(** The recurrence, as a predicate on a list: every term from the third on is
    the sum of the two before it. *)
Definition fib_rec (l : list Z) : Prop :=
  forall (i : nat) a b c, (2 <= i)%nat ->
    l !! (i - 1)%nat = Some a -> l !! (i - 2)%nat = Some b -> l !! i = Some c ->
    c = a + b.

End Fibonacci.

(** ** Python text

    A [str] is a sequence of Unicode code points. File contents, regular
    expression subjects and inserted snippets are [text]; file paths and
    console messages, which the scripts only concatenate and print, stay
    Rocq [string]s. *)

Module PyStr.

Definition text := list N.

(** A literal of the source, as code points (the literals are ASCII). *)
Fixpoint cps (s : string) : text :=
  match s with
  | EmptyString => []
  | String a s' => N_of_ascii a :: cps s'
  end.

(** Code point of a one-character literal. *)
Definition cp (a : ascii) : N := N_of_ascii a.

Global Arguments cps : simpl never.
Global Arguments cp : simpl never.

(** The line feed, written [\n] in the source. *)
Definition LF : N := 10%N.

(** The text of a literal that runs over several lines: the lines, with a
    line feed between one and the next. *)
Fixpoint join_lines (ls : list string) : text :=
  match ls with
  | [] => []
  | [l] => cps l
  | l :: ls' => cps l ++ LF :: join_lines ls'
  end.

(** [s.startswith(p)]. *)
Fixpoint starts_with (p s : text) : bool :=
  match p, s with
  | [], _ => true
  | a :: p', b :: s' => (a =? b)%N && starts_with p' s'
  | _ :: _, [] => false
  end.

(** [needle in hay]: the substring test. *)
Fixpoint contains (needle hay : text) : bool :=
  starts_with needle hay ||
  match hay with
  | [] => false
  | _ :: hay' => contains needle hay'
  end.

(** [str.isspace] on one code point, which is what [\s] tests in a [str]
    pattern: the ASCII controls 9-13 and 28-31, the space, and the Unicode
    white space beyond ASCII. *)
Definition is_space (c : N) : bool :=
  ((9 <=? c) && (c <=? 13) || (28 <=? c) && (c <=? 32) ||
   (c =? 0x85) || (c =? 0xA0) || (c =? 0x1680) ||
   (0x2000 <=? c) && (c <=? 0x200A) ||
   (c =? 0x2028) || (c =? 0x2029) || (c =? 0x202F) || (c =? 0x205F) ||
   (c =? 0x3000))%N.

End PyStr.

(** ** The part of Python's [re] the scripts use

    Both patterns are built from literal text, one-character tests, greedy
    [*] and [+] over a one-character test, concatenation and capture groups.
    [re] matches by backtracking: a greedy repetition first takes as many
    characters as it can and gives them back one at a time while the rest of
    the pattern fails. The matcher below is written in continuation-passing
    style to follow that order. *)

Module PyRe.
Import PyStr.

Inductive atom :=
  | Ch (c : N)        (* the character c *)
  | NotCh (c : N)     (* [^c], which also matches a line feed *)
  | Space.            (* \s *)

Inductive regex :=
  | Lit (l : text)
  | Atom (a : atom)
  | Star (a : atom)
  | Plus (a : atom)
  | Seq (r1 r2 : regex)
  | Group (i : nat) (r : regex).

Definition atom_ok (a : atom) (c : N) : bool :=
  match a with
  | Ch c' => (c =? c')%N
  | NotCh c' => negb (c =? c')%N
  | Space => is_space c
  end.

(** Captured groups, latest first. *)
Definition groups := list (nat * text).

Section Matcher.
Context {A : Type}.

(** Greedy repetition of a one-character test, then the continuation [k] on
    what is left; shorter repetitions are tried when [k] fails. *)
Fixpoint star (p : N -> bool) (s : text) (k : text -> option A) : option A :=
  match s with
  | [] => k []
  | c :: s' =>
      if p c then
        match star p s' k with
        | Some res => Some res
        | None => k s
        end
      else k s
  end.

Fixpoint exec (r : regex) (s : text) (g : groups)
    (k : text -> groups -> option A) : option A :=
  match r with
  | Lit l => if starts_with l s then k (drop (length l) s) g else None
  | Atom a =>
      match s with
      | c :: s' => if atom_ok a c then k s' g else None
      | [] => None
      end
  | Star a => star (atom_ok a) s (fun s' => k s' g)
  | Plus a =>
      match s with
      | c :: s' =>
          if atom_ok a c then star (atom_ok a) s' (fun s'' => k s'' g) else None
      | [] => None
      end
  | Seq r1 r2 => exec r1 s g (fun s1 g1 => exec r2 s1 g1 k)
  | Group i r1 =>
      exec r1 s g
        (fun s1 g1 => k s1 ((i, take (length s - length s1) s) :: g1))
  end.

End Matcher.

(** A match anchored at the start of [s]: its length and its groups. *)
Definition match_here (r : regex) (s : text) : option (nat * groups) :=
  exec r s [] (fun s' g => Some (length s - length s', g)).

(** A match object: [m.start()], [m.end()] and the groups. *)
Record rmatch := RMatch {
  m_start : nat;
  m_end : nat;
  m_groups : groups
}.

(** [m.group(i)]. Every group of a pattern of this fragment takes part in
    every match, so the lookup has a result whenever the pattern has a
    group [i]. *)
Fixpoint lookup_group (g : groups) (i : nat) : text :=
  match g with
  | [] => []
  | (j, t) :: g' => if Nat.eqb i j then t else lookup_group g' i
  end.

Definition group (m : rmatch) (i : nat) : text := lookup_group (m_groups m) i.

(** The scan shared by [finditer] and [sub]: try the pattern at each position
    from the left; after a match go on where it ended. [skip] counts the
    characters of the last match that are still to be passed over, [pos] is
    the index of the head of [s] in the subject. After a match of length 0
    the scan moves on by one character; neither pattern of the scripts has
    such a match. *)
Fixpoint scan (r : regex) (s : text) (pos skip : nat) : list rmatch :=
  match s with
  | [] =>
      match skip, match_here r [] with
      | O, Some (_, g) => [RMatch pos pos g]
      | _, _ => []
      end
  | _ :: s' =>
      match skip with
      | S k => scan r s' (S pos) k
      | O =>
          match match_here r s with
          | Some (len, g) =>
              RMatch pos (pos + len) g :: scan r s' (S pos) (pred len)
          | None => scan r s' (S pos) 0
          end
      end
  end.

(** [list(re.finditer(r, s))]. *)
Definition finditer (r : regex) (s : text) : list rmatch := scan r s 0 0.

(** [re.sub(r, repl, s)] with a function [repl]: the text between matches is
    copied, each match is replaced by [repl] of it. *)
Fixpoint sub_scan (r : regex) (repl : rmatch -> text) (s : text)
    (pos skip : nat) : text :=
  match s with
  | [] =>
      match skip, match_here r [] with
      | O, Some (_, g) => repl (RMatch pos pos g)
      | _, _ => []
      end
  | c :: s' =>
      match skip with
      | S k => sub_scan r repl s' (S pos) k
      | O =>
          match match_here r s with
          | Some (len, g) =>
              repl (RMatch pos (pos + len) g) ++
              match len with
              | O => c :: sub_scan r repl s' (S pos) 0
              | S k => sub_scan r repl s' (S pos) k
              end
          | None => c :: sub_scan r repl s' (S pos) 0
          end
      end
  end.

Definition sub (r : regex) (repl : rmatch -> text) (s : text) : text :=
  sub_scan r repl s 0 0.

End PyRe.

(** ** Files and console

    The scripts read and write files by path and print to the console. A
    [world] holds the files, the lines printed so far and, as a record of
    what the run did, the list of writes performed. Opening a path that does
    not exist raises FileNotFoundError. A file that is there can still fail
    to be read, or to be written: it then carries the exception that
    reading it, or writing it, raises. All of them derive from [Exception].

    In this module a file is the text that a read in text mode returns, line
    ends already turned into LF, and a write stores the text it is given;
    each path has a file of its own. The properties stated with it are about
    the content as read. [OnDisk] below describes the two calls on the
    characters a file stores, with the translation of line ends, and on
    paths that lead to the file of another path. *)

Module PyIO.
Import PyStr.

Local Open Scope string_scope.
Local Open Scope list_scope.

Inductive exn :=
  | FileNotFoundError (path : string)
  | PermissionError (path : string)
  | IsADirectoryError (path : string)
  | UnicodeDecodeError (reason : string)
  | OSError (message : string).

(** [str(e)], as the handlers print it. *)
Definition exn_str (e : exn) : string :=
  match e with
  | FileNotFoundError path =>
      "[Errno 2] No such file or directory: '" +:+ path +:+ "'"
  | PermissionError path =>
      "[Errno 13] Permission denied: '" +:+ path +:+ "'"
  | IsADirectoryError path =>
      "[Errno 21] Is a directory: '" +:+ path +:+ "'"
  | UnicodeDecodeError reason => reason
  | OSError message => message
  end.

Record file := File {
  f_text : text;
  f_read_error : option exn;
  f_write_error : option exn
}.

Record world := World {
  fs : gmap string file;
  stdout : list string;
  writes : list (string * text)
}.

Inductive result (A : Type) :=
  | Ok (a : A)
  | Raise (e : exn).
Arguments Ok {A} a.
Arguments Raise {A} e.

(** A computation that reads and changes the world and returns or raises. *)
Definition IO (A : Type) : Type := world -> result A * world.

Definition io_ret {A} (a : A) : IO A := fun w => (Ok a, w).

Definition io_bind {A B} (m : IO A) (f : A -> IO B) : IO B :=
  fun w =>
    match m w with
    | (Ok a, w') => f a w'
    | (Raise e, w') => (Raise e, w')
    end.

Notation "x <- m ;; k" := (io_bind m (fun x => k))
  (at level 100, m at next level, right associativity, only parsing).
Notation "m ;; k" := (io_bind m (fun _ => k))
  (at level 100, right associativity, only parsing).

(** [try: m except Exception as e: handler(e)]. *)
Definition try_except {A} (m : IO A) (handler : exn -> IO A) : IO A :=
  fun w =>
    match m w with
    | (Ok a, w') => (Ok a, w')
    | (Raise e, w') => handler e w'
    end.

(** [with open(path, 'r') as f: content = f.read()], on the content as
    read. *)
Definition read_text (path : string) : IO text :=
  fun w =>
    match fs w !! path with
    | None => (Raise (FileNotFoundError path), w)
    | Some f =>
        match f_read_error f with
        | None => (Ok (f_text f), w)
        | Some e => (Raise e, w)
        end
    end.

(** [with open(path, 'w') as f: f.write(data)]: the file is created when it
    does not exist and replaced when it does. What is kept is the content a
    later read returns. *)
Definition write_text (path : string) (data : text) : IO unit :=
  fun w =>
    match fs w !! path with
    | Some f =>
        match f_write_error f with
        | None =>
            (Ok tt, World (<[path := File data (f_read_error f) None]> (fs w))
                          (stdout w) (writes w ++ [(path, data)]))
        | Some e => (Raise e, w)
        end
    | None =>
        (Ok tt, World (<[path := File data None None]> (fs w))
                      (stdout w) (writes w ++ [(path, data)]))
    end.

(** [print(line)]. *)
Definition print (line : string) : IO unit :=
  fun w => (Ok tt, World (fs w) (stdout w ++ [line]) (writes w)).

(** [for x in xs: body(x)]. *)
Fixpoint for_in {X} (xs : list X) (body : X -> IO unit) : IO unit :=
  match xs with
  | [] => io_ret tt
  | x :: xs' => body x ;; for_in xs' body
  end.

End PyIO.

(** ** [add_json_imports.py] *)

Module AddJsonImports.
Import PyStr PyRe PyIO.

Local Open Scope string_scope.
Local Open Scope list_scope.

Definition files : list string :=
  ["hypr-claw-app/src/commands/run.rs";
   "hypr-claw-app/tests/session_persistence_test.rs";
   "hypr-claw-runtime/src/runtime_controller.rs";
   "hypr-claw-runtime/tests/stress_test.rs";
   "hypr-claw-runtime/tests/integration_runtime.rs";
   "hypr-claw-runtime/tests/failure_simulation.rs";
   "hypr-claw-runtime/tests/test_production_hardening.rs";
   "hypr-claw-runtime/tests/lock_permit_safety.rs";
   "hypr-claw-runtime/tests/failure_scenarios.rs";
   "hypr-claw-runtime/tests/startup_integrity.rs"].

(** The pattern of line 28: group 1 is [use [^;]+;], then comes [\n]. *)
Definition use_pattern : regex :=
  Seq (Group 1 (Seq (Lit (cps "use "))
                    (Seq (Plus (NotCh (cp ";"))) (Atom (Ch (cp ";"))))))
      (Atom (Ch LF)).

(** The inserted line, [use serde_json::json;] and its line feed. *)
Definition import_line : text := cps "use serde_json::json;" ++ [LF].

(** The statements under [try], lines 19-40. [continue] ends the
    iteration, as reaching the end of the block does. *)
Definition process (filepath : string) : IO unit :=
  content <- read_text filepath ;;
  if contains (cps "use serde_json::json;") content
     || negb (contains (cps "serde_json::json!") content)
  then
    print ("- Skipped " +:+ filepath +:+ " (no json! macro or already imported)")
  else
    let matches := finditer use_pattern content in
    match last matches with
    | Some last_use =>
        let insert_pos := m_end last_use in
        let new_content :=
          take insert_pos content ++ import_line ++ drop insert_pos content in
        write_text filepath new_content ;;
        print ("✓ Added json import to " +:+ filepath)
    | None =>
        print ("✗ Could not find use statements in " +:+ filepath)
    end.

Definition msg_error (filepath : string) (e : exn) : string :=
  "✗ Error processing " +:+ filepath +:+ ": " +:+ exn_str e.

(** One turn of the loop: the [try] block and its handler. *)
Definition iteration (filepath : string) : IO unit :=
  try_except (process filepath) (fun e => print (msg_error filepath e)).

Definition run_on (paths : list string) : IO unit := for_in paths iteration.

Definition script : IO unit := run_on files.

End AddJsonImports.

(** ** [update_tool_registry_mocks.py] *)

Module UpdateToolRegistryMocks.
Import PyStr PyRe PyIO.

Local Open Scope string_scope.
Local Open Scope list_scope.

(** A double quote, and a word between double quotes. *)
Definition DQ : string := String "034"%char "".
Definition q (s : string) : string := DQ +:+ s +:+ DQ.

(** The lines of the triple-quoted literal; it opens with a line break. *)
Definition TOOL_SCHEMA_METHOD_lines : list string :=
  ["";
   "        fn get_tool_schemas(&self, _agent_id: &str) -> Vec<serde_json::Value> {";
   "            vec![";
   "                json!({";
   "                    " +:+ q "type" +:+ ": " +:+ q "function" +:+ ",";
   "                    " +:+ q "function" +:+ ": {";
   "                        " +:+ q "name" +:+ ": " +:+ q "echo" +:+ ",";
   "                        " +:+ q "description" +:+ ": " +:+ q "Echo a message" +:+ ",";
   "                        " +:+ q "parameters" +:+ ": {";
   "                            " +:+ q "type" +:+ ": " +:+ q "object" +:+ ",";
   "                            " +:+ q "properties" +:+ ": {";
   "                                " +:+ q "message" +:+ ": {" +:+ q "type" +:+ ": " +:+ q "string" +:+ "}";
   "                            },";
   "                            " +:+ q "required" +:+ ": [" +:+ q "message" +:+ "]";
   "                        }";
   "                    }";
   "                })";
   "            ]";
   "        }"].

Definition TOOL_SCHEMA_METHOD : text := join_lines TOOL_SCHEMA_METHOD_lines.

Definition files : list string :=
  ["hypr-claw-app/src/commands/run.rs";
   "hypr-claw-app/tests/session_persistence_test.rs";
   "hypr-claw-runtime/src/runtime_controller.rs";
   "hypr-claw-runtime/tests/stress_test.rs";
   "hypr-claw-runtime/tests/integration_runtime.rs";
   "hypr-claw-runtime/tests/failure_simulation.rs";
   "hypr-claw-runtime/tests/test_production_hardening.rs";
   "hypr-claw-runtime/tests/lock_permit_safety.rs";
   "hypr-claw-runtime/tests/failure_scenarios.rs";
   "hypr-claw-runtime/tests/startup_integrity.rs"].

(** The pattern of line 44. Group 1 is [fn get_active_tools\(&self[^}]+\}];
    then come [\s*] and [\n]; group 2 is [\s*] alone; [\}] ends it. *)
Definition pattern : regex :=
  Seq (Group 1 (Seq (Lit (cps "fn get_active_tools(&self"))
                    (Seq (Plus (NotCh (cp "}"))) (Atom (Ch (cp "}"))))))
      (Seq (Star Space)
           (Seq (Atom (Ch LF))
                (Seq (Group 2 (Star Space)) (Atom (Ch (cp "}")))))).

Definition replacer (m : rmatch) : text :=
  let method := group m 1 in
  let indent := group m 2 in
  method ++ [LF] ++ TOOL_SCHEMA_METHOD ++ [LF] ++ indent ++ cps "}".

(** The statements under [try], lines 40-58. *)
Definition process (filepath : string) : IO unit :=
  content <- read_text filepath ;;
  let new_content := sub pattern replacer content in
  if decide (new_content = content) then
    print ("- Skipped " +:+ filepath +:+ " (no changes needed)")
  else
    write_text filepath new_content ;;
    print ("✓ Updated " +:+ filepath).

Definition msg_not_found (filepath : string) : string :=
  "✗ File not found: " +:+ filepath.
Definition msg_error (filepath : string) (e : exn) : string :=
  "✗ Error processing " +:+ filepath +:+ ": " +:+ exn_str e.

(** One turn of the loop: the [try] block and its two handlers, the first
    that fits the exception being the one that runs. *)
Definition iteration (filepath : string) : IO unit :=
  try_except (process filepath)
    (fun e =>
       match e with
       | FileNotFoundError _ => print (msg_not_found filepath)
       | _ => print (msg_error filepath e)
       end).

Definition run_on (paths : list string) : IO unit := for_in paths iteration.

Definition script : IO unit := run_on files.

End UpdateToolRegistryMocks.

(** ** What the two patterns match, stated directly

    These functions are not part of the scripts. They say in closed form
    which texts the backtracking matcher accepts for each pattern; the
    properties below prove that they agree with [PyRe.match_here]. *)

Module Shape.
Import PyStr PyRe.

Local Open Scope list_scope.

(** The longest prefix whose characters pass [p], and what follows it. *)
Fixpoint span (p : N -> bool) (s : text) : text * text :=
  match s with
  | [] => ([], [])
  | c :: s' => if p c then (c :: (span p s').1, (span p s').2) else ([], s)
  end.

Definition differs (c : N) : N -> bool := fun d => negb (d =? c)%N.

(** What follows the last occurrence of [c], if [c] occurs. *)
Fixpoint after_last (c : N) (s : text) : option text :=
  match s with
  | [] => None
  | d :: s' =>
      match after_last c s' with
      | Some t => Some t
      | None => if (d =? c)%N then Some s' else None
      end
  end.

(** [l+ c] where [l] is the negated class [[^c]]: a non-empty run of
    characters other than [c], then [c]. Gives the run and the rest. *)
Definition until (c : N) (s : text) : option (text * text) :=
  match (span (differs c) s).1, (span (differs c) s).2 with
  | _ :: _, _ :: t => Some ((span (differs c) s).1, t)
  | _, _ => None
  end.

(** The use pattern: the statement and the rest. *)
Definition use_match (s : text) : option (text * text) :=
  if starts_with (cps "use ") s then
    match until (cp ";") (drop 4 s) with
    | Some (b, d :: rest) =>
        if (d =? LF)%N then Some (cps "use " ++ b ++ [cp ";"], rest) else None
    | _ => None
    end
  else None.

(** The mock pattern, by pieces. A text is cut at its first closing brace.
    The piece before it must open with [fn get_active_tools(&self] and go on
    for at least one more character. *)
Definition mock_lit : text := cps "fn get_active_tools(&self".
Definition RB : N := cp "}".

Definition mock_head (x : text) : bool :=
  starts_with mock_lit x && (length mock_lit <? length x)%nat.

(** Some suffix of [x] is a head. *)
Fixpoint has_head (x : text) : bool :=
  mock_head x ||
  match x with
  | [] => false
  | _ :: x' => has_head x'
  end.

(** The piece after the brace must be white space holding a line feed, then
    a closing brace. Gives the indentation (the white space after the last
    line feed) and the rest. *)
Definition mock_tail (t : text) : option (text * text) :=
  match (span is_space t).2 with
  | c :: rest =>
      if (c =? RB)%N then
        match after_last LF (span is_space t).1 with
        | Some indent => Some (indent, rest)
        | None => None
        end
      else None
  | [] => None
  end.

(** What takes the place of the white space between the closing brace of
    [get_active_tools] and the closing brace after it. *)
Definition injected (indent : text) : text :=
  [LF] ++ UpdateToolRegistryMocks.TOOL_SCHEMA_METHOD ++ [LF] ++ indent ++ [RB].

(** Group 1, group 2 and the rest. *)
Definition mock_match (s : text) : option (text * text * text) :=
  match (span (differs RB) s).2 with
  | _ :: t =>
      if mock_head (span (differs RB) s).1 then
        match mock_tail t with
        | Some (indent, rest) =>
            Some ((span (differs RB) s).1 ++ [RB], indent, rest)
        | None => None
        end
      else None
  | [] => None
  end.

(** Where the scan stopped: the end of its last match, or the place it set
    out from when it found none. *)
Definition scan_stop (ms : list rmatch) (start : nat) : nat :=
  match last ms with
  | Some m => m_end m
  | None => start
  end.

(** *** What an iteration writes

    The content [add_json_imports.py] writes for a file, if it writes. *)
Definition add_json_rewrite (content : text) : option text :=
  if contains (cps "use serde_json::json;") content
     || negb (contains (cps "serde_json::json!") content)
  then None
  else
    match last (finditer AddJsonImports.use_pattern content) with
    | Some last_use =>
        Some (take (m_end last_use) content ++ AddJsonImports.import_line ++
              drop (m_end last_use) content)
    | None => None
    end.

(** The content [update_tool_registry_mocks.py] writes for a file, if it
    writes. *)
Definition mock_rewrite (content : text) : option text :=
  let new_content :=
    sub UpdateToolRegistryMocks.pattern UpdateToolRegistryMocks.replacer content
  in
  if decide (new_content = content) then None else Some new_content.

(** What ends up written at [path] when a script that rewrites contents by
    [rewrite] meets the world [w]: nothing unless the file is there and
    neither reading nor writing it fails. *)
Definition written (rewrite : text -> option text) (path : string)
    (w : PyIO.world) : option text :=
  match PyIO.fs w !! path with
  | Some f =>
      match PyIO.f_read_error f, PyIO.f_write_error f with
      | None, None => rewrite (PyIO.f_text f)
      | _, _ => None
      end
  | None => None
  end.

(** The files and the record of writes after such an iteration. *)
Definition fs_after (rewrite : text -> option text) (path : string)
    (w : PyIO.world) : gmap string PyIO.file :=
  match written rewrite path w with
  | Some new_content =>
      <[path := PyIO.File new_content None None]> (PyIO.fs w)
  | None => PyIO.fs w
  end.

Definition writes_after (rewrite : text -> option text) (path : string)
    (w : PyIO.world) : list (string * text) :=
  match written rewrite path w with
  | Some new_content => PyIO.writes w ++ [(path, new_content)]
  | None => PyIO.writes w
  end.

End Shape.

(** ** Sample files *)

Module Samples.
Import PyStr PyIO.

Local Open Scope string_scope.
Local Open Scope list_scope.

Definition mock_line : string :=
  "    fn get_active_tools(&self, _agent_id: &str) -> Vec<String> { vec![] }".

(** A Rust file with two mocks. The first already has the method, laid out
    as the script lays it out; the second does not. *)
Definition half_done : text :=
  join_lines
    ["impl ToolRegistry for Done {"; mock_line] ++
  [LF] ++ UpdateToolRegistryMocks.TOOL_SCHEMA_METHOD ++ [LF] ++
  join_lines
    ["}"; "impl ToolRegistry for Fresh {"; mock_line; "}"; ""].

(** A Rust file that uses the macro and does not import it. *)
Definition with_uses : text :=
  join_lines
    ["use std::sync::Arc;"; "use crate::tools;"; "";
     "fn schema() -> Value { serde_json::json!({}) }"; ""].

(** A world holding the given files, none of which fails to be read or
    written, with nothing printed or written yet. *)
Definition world_of (files : list (string * text)) : world :=
  World (list_to_map ((fun pc => (pc.1, File pc.2 None None)) <$> files)) [] [].

End Samples.

(** ** The Fibonacci numbers

    The textbook sequence, to say what [Fibonacci.fibonacci] computes:
    F(0) = 0, F(1) = 1 and F(k+2) = F(k+1) + F(k). *)

Module FibSeq.

Local Open Scope Z_scope.

(** The pair F(k), F(k+1). *)
Fixpoint fib_pair (k : nat) : Z * Z :=
  match k with
  | O => (0, 1)
  | S k' => ((fib_pair k').2, (fib_pair k').1 + (fib_pair k').2)
  end.

Definition fib (k : nat) : Z := (fib_pair k).1.

(** The first [n] of them. *)
Definition first_fibs (n : nat) : list Z := fib <$> seq 0 n.

(** The term [k] places after [a], in a sequence where [b] follows [a]: a
    way to reach F(k), as [fib_from k 0 1], in [k] additions. *)
Fixpoint fib_from (k : nat) (a b : Z) : Z :=
  match k with
  | O => a
  | S k' => fib_from k' b (a + b)
  end.

End FibSeq.

(** ** Texts the scripts look for *)

Module Layout.
Import PyStr.

Local Open Scope string_scope.
Local Open Scope list_scope.

(** Somewhere in [content] stands [use ], then one or more characters none
    of which is a semicolon, then a semicolon, then a line feed. *)
Definition has_use_statement (content : text) : Prop :=
  exists pre body post,
    content = pre ++ (cps "use " ++ body ++ [cp ";"; LF]) ++ post /\
    body <> [] /\ Forall (fun d => d <> cp ";") body.

(** A Rust file that uses the macro and has no use statement at all. *)
Definition without_uses : text :=
  join_lines ["fn schema() -> Value { serde_json::json!({}) }"; ""].

(** A Rust file with no mock in it. *)
Definition no_mock : text :=
  join_lines ["pub struct Registry;"; "impl Registry { fn new() -> Self { Registry } }"; ""].

End Layout.

(** ** What the loops print and leave behind *)

Module Outcome.
Import PyStr PyIO.

Local Open Scope string_scope.
Local Open Scope list_scope.

(** Somewhere in [content] stands a [get_active_tools] method that the
    pattern of [update_tool_registry_mocks.py] matches: its text up to the
    first closing brace, white space with a line feed, and a closing brace. *)
Definition has_open_mock (content : text) : Prop :=
  exists pre body ws indent post,
    content = pre ++ cps "fn get_active_tools(&self" ++ body ++
              cp "}" :: ws ++ LF :: indent ++ cp "}" :: post /\
    body <> [] /\ Forall (fun d => d <> cp "}") body /\
    Forall (fun c => is_space c = true) ws /\
    Forall (fun c => is_space c = true) indent /\
    Forall (fun d => d <> LF) indent.

(** The lines a turn of [add_json_imports.py] can print for a path. *)
Definition add_json_line (p line : string) : Prop :=
  line = "- Skipped " +:+ p +:+ " (no json! macro or already imported)" \/
  line = "✓ Added json import to " +:+ p \/
  line = "✗ Could not find use statements in " +:+ p \/
  exists e, line = AddJsonImports.msg_error p e.

(** The lines a turn of [update_tool_registry_mocks.py] can print for a
    path. *)
Definition mock_update_line (p line : string) : Prop :=
  line = "✓ Updated " +:+ p \/
  line = "- Skipped " +:+ p +:+ " (no changes needed)" \/
  line = UpdateToolRegistryMocks.msg_not_found p \/
  exists e, line = UpdateToolRegistryMocks.msg_error p e.

End Outcome.

(** ** The scripts on stored files

    [PyIO] describes a file by the text that a read returns and a write is
    given, and keeps one file for each path. The scripts open their files
    with [open(path, 'r')] and [open(path, 'w')], that is in text mode, and on
    a path that the file system resolves: a symbolic link, a hard link or
    another spelling of a path leads to the file of another path. Here the
    same two calls are described on the characters a file stores.

    Reading in text mode gives the stored characters with every line end, CR
    LF or CR alone, turned into LF. Writing in text mode stores the text
    with every LF turned into the line separator of the platform,
    [os.linesep]: LF on POSIX, CR LF on Windows. Both calls act on the file
    the path resolves to. *)

Module OnDisk.
Import PyStr PyRe PyIO.

Local Open Scope string_scope.
Local Open Scope list_scope.

Definition CR : N := 13.

(** What a read in text mode returns for the stored characters [raw]. *)
Fixpoint universal_newlines (raw : text) : text :=
  match raw with
  | [] => []
  | c :: rest =>
      if (c =? CR)%N then
        match rest with
        | d :: rest' =>
            if (d =? LF)%N then LF :: universal_newlines rest'
            else LF :: universal_newlines rest
        | [] => [LF]
        end
      else c :: universal_newlines rest
  end.

(** What a write in text mode stores for the text [data]. *)
Definition to_linesep (linesep : text) (data : text) : text :=
  flat_map (fun c => if (c =? LF)%N then linesep else [c]) data.

Section Platform.

(** The file a path leads to, named by one path chosen for it, and the line
    separator. In [fs], the files are kept under the names [resolve] gives,
    and [f_text] is what a file stores. *)
Variable resolve : string -> string.
Variable linesep : text.

(** [with open(path, 'r') as f: content = f.read()]. *)
Definition open_read (path : string) : IO text :=
  fun w =>
    match fs w !! resolve path with
    | None => (Raise (FileNotFoundError path), w)
    | Some f =>
        match f_read_error f with
        | None => (Ok (universal_newlines (f_text f)), w)
        | Some e => (Raise e, w)
        end
    end.

(** [with open(path, 'w') as f: f.write(data)]. The record of writes takes
    the path and the text as the call has them. *)
Definition open_write (path : string) (data : text) : IO unit :=
  fun w =>
    match fs w !! resolve path with
    | Some f =>
        match f_write_error f with
        | None =>
            (Ok tt,
             World (<[resolve path :=
                        File (to_linesep linesep data) (f_read_error f) None]>
                      (fs w))
                   (stdout w) (writes w ++ [(path, data)]))
        | Some e => (Raise e, w)
        end
    | None =>
        (Ok tt,
         World (<[resolve path := File (to_linesep linesep data) None None]>
                  (fs w))
               (stdout w) (writes w ++ [(path, data)]))
    end.

(** [add_json_imports.py], lines 19-40. *)
Definition add_json_process (filepath : string) : IO unit :=
  content <- open_read filepath ;;
  if contains (cps "use serde_json::json;") content
     || negb (contains (cps "serde_json::json!") content)
  then
    print ("- Skipped " +:+ filepath +:+ " (no json! macro or already imported)")
  else
    let matches := finditer AddJsonImports.use_pattern content in
    match last matches with
    | Some last_use =>
        let insert_pos := m_end last_use in
        let new_content :=
          take insert_pos content ++ AddJsonImports.import_line ++
          drop insert_pos content in
        open_write filepath new_content ;;
        print ("✓ Added json import to " +:+ filepath)
    | None =>
        print ("✗ Could not find use statements in " +:+ filepath)
    end.

Definition add_json_iteration (filepath : string) : IO unit :=
  try_except (add_json_process filepath)
    (fun e => print (AddJsonImports.msg_error filepath e)).

Definition add_json_run_on (paths : list string) : IO unit :=
  for_in paths add_json_iteration.

(** [update_tool_registry_mocks.py], lines 40-58. *)
Definition mocks_process (filepath : string) : IO unit :=
  content <- open_read filepath ;;
  let new_content :=
    sub UpdateToolRegistryMocks.pattern UpdateToolRegistryMocks.replacer content
  in
  if decide (new_content = content) then
    print ("- Skipped " +:+ filepath +:+ " (no changes needed)")
  else
    open_write filepath new_content ;;
    print ("✓ Updated " +:+ filepath).

Definition mocks_iteration (filepath : string) : IO unit :=
  try_except (mocks_process filepath)
    (fun e =>
       match e with
       | FileNotFoundError _ =>
           print (UpdateToolRegistryMocks.msg_not_found filepath)
       | _ => print (UpdateToolRegistryMocks.msg_error filepath e)
       end).

Definition mocks_run_on (paths : list string) : IO unit :=
  for_in paths mocks_iteration.

End Platform.

(** A Rust file with the line ends of Windows, and a file system where
    [link.rs] is a link to [a.rs]. *)
Definition with_uses_crlf : text := to_linesep [CR; LF] Samples.with_uses.

Definition with_uses_imported : text :=
  join_lines
    ["use std::sync::Arc;"; "use crate::tools;"; "use serde_json::json;"; "";
     "fn schema() -> Value { serde_json::json!({}) }"; ""].

Definition link_to_a (path : string) : string :=
  if decide (path = "link.rs") then "a.rs" else path.

End OnDisk.

(** * Properties *)

(** ** Fibonacci *)

Section FibonacciFacts.
Import Fibonacci.
Local Open Scope Z_scope.

Lemma py_index_nonneg (l : list Z) (i : Z) :
  0 <= i -> py_index l i = l !! Z.to_nat i.
Proof.
  intros Hi. unfold py_index.
  destruct (Z.ltb_spec i 0) as [?|_]; [lia|].
  destruct (Z.leb_spec 0 i) as [_|?]; [|lia]. simpl.
  destruct (Z.ltb_spec i (Z.of_nat (length l))) as [?|Hge]; [done|].
  symmetry. apply lookup_ge_None. lia.
Qed.

Lemma py_range_empty a b : b <= a -> py_range a b = [].
Proof.
  intros H. unfold py_range. by replace (Z.to_nat (b - a)) with 0%nat by lia.
Qed.

Lemma py_range_snoc a b : a <= b -> py_range a (b + 1) = py_range a b ++ [b].
Proof.
  intros H. unfold py_range.
  replace (Z.to_nat (b + 1 - a)) with (Z.to_nat (b - a) + 1)%nat by lia.
  rewrite seq_app, fmap_app. simpl. do 2 f_equal. lia.
Qed.

Lemma for_each_app idx1 idx2 l :
  for_each (idx1 ++ idx2) l = for_each idx1 l ≫= for_each idx2.
Proof.
  revert l. induction idx1 as [|i idx1 IH]; intros l; simpl; [done|].
  destruct (loop_body i l) as [l'|]; simpl; [apply IH|done].
Qed.

(** One iteration on a list that already holds [i >= 2] terms. *)
Lemma loop_body_spec (l : list Z) (i : Z) :
  Z.of_nat (length l) = i -> 2 <= i ->
  exists a b, l !! Z.to_nat (i - 1) = Some a /\ l !! Z.to_nat (i - 2) = Some b /\
              loop_body i l = Some (l ++ [a + b]).
Proof.
  intros Hlen Hi.
  destruct (lookup_lt_is_Some_2 l (Z.to_nat (i - 1))) as [a Ha]; [lia|].
  destruct (lookup_lt_is_Some_2 l (Z.to_nat (i - 2))) as [b Hb]; [lia|].
  exists a, b. repeat split; try done.
  unfold loop_body. rewrite !py_index_nonneg by lia. by rewrite Ha, Hb.
Qed.

Lemma fib_rec_snoc (l : list Z) a b :
  (2 <= length l)%nat -> fib_rec l ->
  l !! (length l - 1)%nat = Some a -> l !! (length l - 2)%nat = Some b ->
  fib_rec (l ++ [a + b]).
Proof.
  intros Hlen Hrec Ha Hb i a' b' c Hi Ha' Hb' Hc.
  destruct (decide (i < length l)%nat) as [Hlt|Hge].
  - rewrite lookup_app_l in Ha', Hb', Hc by lia. eauto.
  - assert (i = length l) as ->.
    { apply lookup_lt_Some in Hc. rewrite length_app in Hc. simpl in Hc. lia. }
    rewrite lookup_app_l in Ha', Hb' by lia.
    rewrite lookup_app_r in Hc by lia.
    replace (length l - length l)%nat with 0%nat in Hc by lia.
    simpl in Hc. congruence.
Qed.

(** The loop of [fibonacci] run for [k] iterations. *)
Lemma fib_loop (k : nat) :
  exists l, for_each (py_range 2 (2 + Z.of_nat k)) [0; 1] = Some l /\
            length l = (2 + k)%nat /\ fib_rec l.
Proof.
  induction k as [|k (l & Hrun & Hlen & Hrec)].
  - exists [0; 1]. split; [|split; [done|]].
    + by rewrite py_range_empty by lia.
    + intros i a b c Hi _ _ Hc. apply lookup_lt_Some in Hc. simpl in Hc. lia.
  - replace (2 + Z.of_nat (S k)) with (2 + Z.of_nat k + 1) by lia.
    rewrite py_range_snoc, for_each_app, Hrun by lia. simpl.
    destruct (loop_body_spec l (2 + Z.of_nat k)) as (a & b & Ha & Hb & ->);
      [lia|lia|].
    exists (l ++ [a + b]). split; [done|split].
    + rewrite length_app. simpl. lia.
    + apply fib_rec_snoc; [lia|done| |].
      * by replace (length l - 1)%nat with (Z.to_nat (2 + Z.of_nat k - 1)) by lia.
      * by replace (length l - 2)%nat with (Z.to_nat (2 + Z.of_nat k - 2)) by lia.
Qed.

(** [fibonacci] past its three guards is the loop. *)
Lemma fibonacci_loop (n : Z) :
  3 <= n -> fibonacci n = for_each (py_range 2 n) [0; 1].
Proof.
  intros Hn. unfold fibonacci.
  destruct (Z.leb_spec n 0); [lia|].
  destruct (Z.eqb_spec n 1); [lia|].
  destruct (Z.eqb_spec n 2); [lia|done].
Qed.

Lemma fibonacci_spec (n : Z) :
  0 <= n ->
  exists l, fibonacci n = Some l /\ Z.of_nat (length l) = n /\ fib_rec l.
Proof.
  intros Hn.
  destruct (decide (n = 0)) as [->|].
  { exists []. split; [done|split; [done|]]. intros i ? ? ? ? ? ? Hc. done. }
  destruct (decide (n = 1)) as [->|].
  { exists [0]. split; [done|split; [done|]]. intros i ? ? ? ? ? ? Hc.
    apply lookup_lt_Some in Hc. simpl in Hc. lia. }
  destruct (decide (n = 2)) as [->|].
  { exists [0; 1]. split; [done|split; [done|]]. intros i ? ? ? ? ? ? Hc.
    apply lookup_lt_Some in Hc. simpl in Hc. lia. }
  destruct (fib_loop (Z.to_nat (n - 2))) as (l & Hrun & Hlen & Hrec).
  exists l. rewrite fibonacci_loop by lia.
  replace (2 + Z.of_nat (Z.to_nat (n - 2))) with n in Hrun by lia.
  split; [done|split; [lia|done]].
Qed.

Lemma fibonacci_neg (n : Z) : n <= 0 -> fibonacci n = Some [].
Proof. intros Hn. unfold fibonacci. by destruct (Z.leb_spec n 0); [|lia]. Qed.

Lemma fibonacci_total (n : Z) : exists l, fibonacci n = Some l.
Proof.
  destruct (decide (n < 0)) as [Hn|Hn].
  - exists []. apply fibonacci_neg. lia.
  - destruct (fibonacci_spec n) as (l & Hl & _); [lia|eauto].
Qed.

(** C1: for n >= 0, [fibonacci n] returns a list of exactly n terms, and each
    term at an index i with 2 <= i < n is the sum of the terms at i-1 and
    i-2 (read with Python's own indexing). *)
Theorem fibonacci_length_and_recurrence (n : Z) :
  0 <= n ->
  exists l, fibonacci n = Some l /\ Z.of_nat (length l) = n /\
    forall i, 2 <= i < n ->
      exists a b c, py_index l (i - 1) = Some a /\ py_index l (i - 2) = Some b /\
                    py_index l i = Some c /\ c = a + b.
Proof.
  intros Hn. destruct (fibonacci_spec n Hn) as (l & Hl & Hlen & Hrec).
  exists l. split; [done|split; [done|]]. intros i Hi.
  rewrite !py_index_nonneg by lia.
  destruct (lookup_lt_is_Some_2 l (Z.to_nat (i - 1))) as [a Ha]; [lia|].
  destruct (lookup_lt_is_Some_2 l (Z.to_nat (i - 2))) as [b Hb]; [lia|].
  destruct (lookup_lt_is_Some_2 l (Z.to_nat i)) as [c Hc]; [lia|].
  exists a, b, c. split; [done|split; [done|split; [done|]]].
  apply (Hrec (Z.to_nat i)); [lia| | |done].
  - by replace (Z.to_nat i - 1)%nat with (Z.to_nat (i - 1)) by lia.
  - by replace (Z.to_nat i - 2)%nat with (Z.to_nat (i - 2)) by lia.
Qed.

Lemma fibonacci_length_and_recurrence_witness :
  exists l, fibonacci 7 = Some l /\ Z.of_nat (length l) = 7 /\
    forall i, 2 <= i < 7 ->
      exists a b c, py_index l (i - 1) = Some a /\ py_index l (i - 2) = Some b /\
                    py_index l i = Some c /\ c = a + b.
Proof. apply (fibonacci_length_and_recurrence 7). lia. Defined.

(** C2: the documented small cases: n = 0, 1, 2 and 5. *)
Theorem fibonacci_examples :
  fibonacci 0 = Some [] /\ fibonacci 1 = Some [0] /\
  fibonacci 2 = Some [0; 1] /\ fibonacci 5 = Some [0; 1; 1; 2; 3].
Proof. repeat split; reflexivity. Qed.

(** C8: a negative count gives the empty list, as 0 does, and no integer
    input makes [fibonacci] raise. *)
Theorem fibonacci_negative_count (n : Z) :
  n < 0 ->
  fibonacci n = Some [] /\ fibonacci n = fibonacci 0 /\
  forall m : Z, exists l, fibonacci m = Some l.
Proof.
  intros Hn. rewrite fibonacci_neg by lia.
  split; [done|split; [done|]]. apply fibonacci_total.
Qed.

Lemma fibonacci_negative_count_witness :
  fibonacci (-4) = Some [] /\ fibonacci (-4) = fibonacci 0 /\
  forall m : Z, exists l, fibonacci m = Some l.
Proof. apply (fibonacci_negative_count (-4)). lia. Defined.

(** C9: for n >= 0, [fibonacci (n+1)] is [fibonacci n] with one more term
    appended, so [fibonacci n] is a prefix of it. *)
Theorem fibonacci_prefix (n : Z) :
  0 <= n ->
  exists l x, fibonacci n = Some l /\ fibonacci (n + 1) = Some (l ++ [x]) /\
              l `prefix_of` l ++ [x].
Proof.
  intros Hn.
  assert (forall (l : list Z) x, l `prefix_of` l ++ [x]) as Hpre
    by (intros; by apply prefix_app_r).
  destruct (decide (n = 0)) as [->|]; [by exists [], 0|].
  destruct (decide (n = 1)) as [->|]; [by exists [0], 1|].
  destruct (decide (n = 2)) as [->|]; [by exists [0; 1], 1|].
  destruct (fibonacci_spec n Hn) as (l & Hl & Hlen & _).
  destruct (loop_body_spec l n) as (a & b & _ & _ & Hstep); [done|lia|].
  exists l, (a + b). split; [done|split; [|done]].
  rewrite fibonacci_loop in Hl |- * by lia.
  rewrite py_range_snoc, for_each_app, Hl by lia. simpl. by rewrite Hstep.
Qed.

Lemma fibonacci_prefix_witness :
  exists l x, fibonacci 6 = Some l /\ fibonacci (6 + 1) = Some (l ++ [x]) /\
              l `prefix_of` l ++ [x].
Proof. apply (fibonacci_prefix 6). lia. Defined.

Local Open Scope string_scope.
Local Open Scope list_scope.

(** C6: when the line typed at the prompt is not an integer, or is a negative
    one, [main] prints the banner, the prompt and one rejection message, ends
    normally, and prints neither the "First n" heading nor any sequence,
    whatever the limit on the length of numbers turned into text. *)
Theorem main_rejects_bad_input
    (max_str_digits : nat) (py_int : string -> option Z) (line : string) :
  (py_int line = None \/ exists n, py_int line = Some n /\ n < 0) ->
  exists msg,
    main max_str_digits py_int (Some line) = (banner ++ [prompt; msg], None) /\
    (py_int line = None -> msg = msg_invalid) /\
    (forall n, py_int line = Some n -> msg = msg_negative) /\
    (forall l, py_repr_list l ∉ banner ++ [prompt; msg]) /\
    (forall n, msg_first n ∉ banner ++ [prompt; msg]).
Proof.
  intros Hbad.
  assert (forall msg, msg = msg_invalid \/ msg = msg_negative ->
    (forall l, py_repr_list l ∉ banner ++ [prompt; msg]) /\
    (forall n, msg_first n ∉ banner ++ [prompt; msg])) as Hnone.
  { intros msg Hmsg. split; intros x Hin; simpl in Hin;
      repeat (apply elem_of_cons in Hin as [Heq|Hin]; [|]);
      try (by apply elem_of_nil in Hin);
      destruct Hmsg as [-> | ->]; discriminate Heq. }
  unfold main. destruct Hbad as [Hnot | (n & Hn & Hneg)].
  - exists msg_invalid. rewrite Hnot.
    split; [by rewrite <- app_assoc|]. split; [done|]. split; [congruence|].
    apply Hnone. by left.
  - exists msg_negative. rewrite Hn.
    destruct (Z.ltb_spec n 0) as [_|?]; [|lia].
    split; [by rewrite <- app_assoc|]. split; [congruence|]. split; [done|].
    apply Hnone. by right.
Qed.

Lemma main_rejects_bad_input_witness :
  exists msg,
    main 4300 decimal_int (Some "-3") = (banner ++ [prompt; msg], None) /\
    (decimal_int "-3" = None -> msg = msg_invalid) /\
    (forall n, decimal_int "-3" = Some n -> msg = msg_negative) /\
    (forall l, py_repr_list l ∉ banner ++ [prompt; msg]) /\
    (forall n, msg_first n ∉ banner ++ [prompt; msg]).
Proof.
  apply (main_rejects_bad_input 4300 decimal_int "-3").
  right. exists (-3). split; [reflexivity|lia].
Defined.

End FibonacciFacts.

(** ** The matcher *)

Section MatcherFacts.
Import PyStr PyRe Shape.

Lemma starts_with_app (p t : text) : starts_with p (p ++ t) = true.
Proof. induction p as [|a p IH]; simpl; [done|]. by rewrite N.eqb_refl. Qed.

Lemma starts_with_inv (p s : text) :
  starts_with p s = true -> s = p ++ drop (length p) s.
Proof.
  revert s. induction p as [|a p IH]; intros [|b s] H; simpl in *; try done.
  apply andb_true_iff in H as [Hab Hps]. apply N.eqb_eq in Hab as ->.
  f_equal. by apply IH.
Qed.

Lemma starts_with_prefix (p x t : text) :
  starts_with p x = true -> starts_with p (x ++ t) = true.
Proof.
  intros H. rewrite (starts_with_inv _ _ H), <- app_assoc.
  apply starts_with_app.
Qed.

Lemma span_eq (p : N -> bool) (s : text) : (span p s).1 ++ (span p s).2 = s.
Proof.
  induction s as [|c s IH]; simpl; [done|].
  destruct (p c); simpl; [by rewrite IH|done].
Qed.

Lemma span_all (p : N -> bool) (s : text) :
  Forall (fun c => p c = true) (span p s).1.
Proof.
  induction s as [|c s IH]; simpl; [constructor|].
  destruct (p c) eqn:E; simpl; [by constructor|constructor].
Qed.

Lemma span_stop (p : N -> bool) (s : text) c t :
  (span p s).2 = c :: t -> p c = false.
Proof.
  induction s as [|d s IH]; simpl; [done|].
  destruct (p d) eqn:E; simpl; [done|]. by intros [= -> _].
Qed.

(** A text stops a run of [p] when it is empty or opens with a character
    that fails [p]. *)
Lemma span_app (p : N -> bool) (b t : text) :
  Forall (fun c => p c = true) b -> (span p t).1 = [] ->
  span p (b ++ t) = (b, t).
Proof.
  intros Hb Ht. induction Hb as [|c b Hc _ IH]; simpl.
  - pose proof (span_eq p t) as Heq. destruct (span p t) as [x y].
    simpl in *. subst x. simpl in Heq. by subst y.
  - by rewrite Hc, IH.
Qed.

Lemma span_nil_stop (p : N -> bool) (t : text) :
  match t with [] => True | c :: _ => p c = false end -> (span p t).1 = [].
Proof. destruct t as [|c t]; simpl; [done|]. by intros ->. Qed.

Lemma span_idem (p : N -> bool) (s : text) : (span p (span p s).2).1 = [].
Proof.
  apply span_nil_stop. destruct (span p s).2 as [|c t] eqn:E; [done|].
  by apply span_stop in E.
Qed.

Lemma take_consumed (a b : text) : take (length (a ++ b) - length b) (a ++ b) = a.
Proof.
  rewrite length_app. replace (length a + length b - length b) with (length a) by lia.
  by rewrite take_app_length.
Qed.

(** A greedy run followed by something that cannot open with a character of
    the run never gives a character back. *)
Lemma star_commit {A} (p : N -> bool) (s : text) (k : text -> option A) :
  (forall c t, p c = true -> k (c :: t) = None) ->
  star p s k = k (span p s).2.
Proof.
  intros Hk. induction s as [|c s IH]; simpl; [done|].
  destruct (p c) eqn:E; simpl; [|done]. rewrite IH.
  destruct (k (span p s).2); [done|]. by apply Hk.
Qed.

Lemma exec_seq {A} r1 r2 s g (k : text -> groups -> option A) :
  exec (Seq r1 r2) s g k = exec r1 s g (fun s1 g1 => exec r2 s1 g1 k).
Proof. done. Qed.

Lemma exec_group {A} i r s g (k : text -> groups -> option A) :
  exec (Group i r) s g k =
  exec r s g (fun s1 g1 => k s1 ((i, take (length s - length s1) s) :: g1)).
Proof. done. Qed.

Lemma exec_lit {A} l s g (k : text -> groups -> option A) :
  exec (Lit l) s g k = if starts_with l s then k (drop (length l) s) g else None.
Proof. done. Qed.

(** [[^c]+c]: a non-empty run of characters other than [c], then [c]. *)
Lemma exec_until {A} (c : N) s g (k : text -> groups -> option A) :
  exec (Seq (Plus (NotCh c)) (Atom (Ch c))) s g k =
  match until c s with
  | Some (_, t) => k t g
  | None => None
  end.
Proof.
  unfold until. destruct s as [|d s]; [done|]. simpl.
  change (negb (d =? c)%N) with (differs c d).
  destruct (differs c d) eqn:Hd; simpl; [|done].
  rewrite (star_commit (fun c0 => negb (c0 =? c)%N)).
  - change (fun c0 : N => negb (c0 =? c)%N) with (differs c).
    destruct (span (differs c) s).2 as [|e t] eqn:E; [done|].
    apply span_stop in E. unfold differs in E.
    apply negb_false_iff in E. by rewrite E.
  - intros e t He. by apply negb_true_iff in He as ->.
Qed.

Lemma until_spec (c : N) (s b t : text) :
  until c s = Some (b, t) ->
  s = b ++ c :: t /\ b <> [] /\ Forall (fun d => d <> c) b.
Proof.
  unfold until. pose proof (span_eq (differs c) s) as Heq.
  pose proof (span_all (differs c) s) as Hall.
  destruct (span (differs c) s).1 as [|d b'] eqn:E1; [done|].
  destruct (span (differs c) s).2 as [|e t'] eqn:E2; [done|].
  intros [= <- <-]. apply span_stop in E2. unfold differs in E2.
  apply negb_false_iff, N.eqb_eq in E2 as ->.
  split; [done|split; [done|]].
  eapply Forall_impl; [exact Hall|]. intros x Hx. unfold differs in Hx.
  by apply negb_true_iff, N.eqb_neq in Hx.
Qed.

Lemma span_app_all (p : N -> bool) (b t : text) :
  Forall (fun c => p c = true) b ->
  span p (b ++ t) = (b ++ (span p t).1, (span p t).2).
Proof.
  intros Hb. induction Hb as [|c b Hc _ IH]; simpl.
  - by destruct (span p t).
  - by rewrite Hc, IH.
Qed.

(** The use pattern accepts what [use_match] describes. *)
Lemma use_match_ok (s : text) :
  match_here AddJsonImports.use_pattern s =
  (fun '(stmt, rest) => (length s - length rest, [(1, stmt)])) <$> use_match s.
Proof.
  unfold match_here, AddJsonImports.use_pattern, use_match.
  rewrite exec_seq, exec_group, exec_seq, exec_lit.
  change (length (cps "use ")) with 4.
  destruct (starts_with (cps "use ") s) eqn:Hs; [|done].
  rewrite exec_until.
  destruct (until (cp ";") (drop 4 s)) as [[b t]|] eqn:Hu; [|done].
  destruct t as [|d rest]; [done|].
  assert (take (length s - length (d :: rest)) s = cps "use " ++ b ++ [cp ";"])
    as ->.
  { apply starts_with_inv in Hs. apply until_spec in Hu as (Hu & _ & _).
    change (length (cps "use ")) with 4 in Hs. rewrite Hu in Hs.
    rewrite Hs.
    replace (cps "use " ++ b ++ cp ";" :: d :: rest)
      with ((cps "use " ++ b ++ [cp ";"]) ++ d :: rest)
      by (by rewrite <- !app_assoc).
    apply take_consumed. }
  cbn [exec atom_ok]. by destruct (d =? LF)%N.
Qed.

(** The tail of the mock pattern: white space, a line feed, the captured
    indentation, a closing brace. The run of white space gives characters
    back until a line feed is found, so the last line feed is the one. *)
Section Tail.
Context {A : Type} (f : text -> groups -> A) (g : groups).

Let after_lf : regex :=
  Seq (Atom (Ch LF)) (Seq (Group 2 (Star Space)) (Atom (Ch RB))).
Let kk : text -> option A :=
  fun u => exec after_lf u g (fun s' g' => Some (f s' g')).

Lemma space_not_RB c : is_space c = true -> (c =? RB)%N = false.
Proof.
  intros Hc. apply N.eqb_neq. intros ->. by vm_compute in Hc.
Qed.

Lemma not_space_not_LF c : is_space c = false -> (c =? LF)%N = false.
Proof.
  intros Hc. apply N.eqb_neq. intros ->. by vm_compute in Hc.
Qed.

Lemma kk_eval (u : text) :
  kk u =
  match u with
  | c :: u' =>
      if (c =? LF)%N then
        match (span is_space u').2 with
        | d :: rest =>
            if (d =? RB)%N then Some (f rest ((2, (span is_space u').1) :: g))
            else None
        | [] => None
        end
      else None
  | [] => None
  end.
Proof.
  unfold kk, after_lf. destruct u as [|c u]; [done|].
  rewrite exec_seq. simpl. destruct (c =? LF)%N; [|done].
  rewrite (star_commit is_space).
  - destruct (span is_space u).2 as [|d rest] eqn:E; [done|].
    assert (take (length u - length (d :: rest)) u = (span is_space u).1) as Ht.
    { pose proof (span_eq is_space u) as Heq. rewrite E in Heq.
      set (a := (span is_space u).1) in *. rewrite <- Heq.
      apply take_consumed. }
    by rewrite Ht.
  - intros d t Hd. by rewrite (space_not_RB _ Hd).
Qed.

Lemma star_last_lf (ws t2 : text) :
  Forall (fun c => is_space c = true) ws -> (span is_space t2).1 = [] ->
  star is_space (ws ++ t2) kk =
  match t2 with
  | c :: rest =>
      if (c =? RB)%N then
        match after_last LF ws with
        | Some indent => Some (f rest ((2, indent) :: g))
        | None => None
        end
      else None
  | [] => None
  end.
Proof.
  intros Hws Ht2. induction Hws as [|c ws Hc Hws IH].
  - cbn [app]. destruct t2 as [|c rest]; [by cbn [star]; rewrite kk_eval|].
    cbn [star span] in *. destruct (is_space c) eqn:Hc; [done|].
    rewrite kk_eval, (not_space_not_LF _ Hc). by destruct (c =? RB)%N.
  - cbn [app star after_last].
    rewrite Hc, IH, kk_eval, (span_app is_space ws t2 Hws Ht2). cbn [fst snd].
    destruct t2 as [|d rest]; [by destruct (c =? LF)%N|].
    destruct (d =? RB)%N; [|by destruct (c =? LF)%N].
    destruct (after_last LF ws); [done|]. by destruct (c =? LF)%N.
Qed.

Lemma exec_tail (t : text) :
  exec (Seq (Star Space) after_lf) t g (fun s' g' => Some (f s' g')) =
  (fun '(indent, rest) => f rest ((2, indent) :: g)) <$> mock_tail t.
Proof.
  rewrite exec_seq. change (exec (Star Space) t g ?k) with (star is_space t kk).
  rewrite <- (span_eq is_space t) at 1.
  rewrite star_last_lf by (apply span_all || apply span_idem).
  unfold mock_tail. destruct (span is_space t).2 as [|c rest]; [done|].
  destruct (c =? RB)%N; [|done]. by destruct (after_last LF _).
Qed.

End Tail.

Lemma mock_lit_no_RB : Forall (fun c => differs RB c = true) mock_lit.
Proof. by repeat constructor. Qed.

(** The mock pattern accepts what [mock_match] describes. *)
Lemma mock_match_ok (s : text) :
  match_here UpdateToolRegistryMocks.pattern s =
  (fun '(method, indent, rest) =>
     (length s - length rest, [(2, indent); (1, method)])) <$> mock_match s.
Proof.
  unfold match_here, UpdateToolRegistryMocks.pattern, mock_match.
  rewrite exec_seq, exec_group, exec_seq, exec_lit.
  change (cps "fn get_active_tools(&self") with mock_lit.
  change (cp "}") with RB.
  destruct (starts_with mock_lit s) eqn:Hs.
  - rewrite exec_until. apply starts_with_inv in Hs.
    set (s1 := drop (length mock_lit) s) in *.
    assert (span (differs RB) s =
            (mock_lit ++ (span (differs RB) s1).1, (span (differs RB) s1).2))
      as Hsp by (rewrite Hs at 1; apply span_app_all, mock_lit_no_RB).
    rewrite Hsp. cbn [fst snd]. unfold until, mock_head. rewrite starts_with_app, length_app.
    pose proof (span_eq (differs RB) s1) as Heq.
    destruct (span (differs RB) s1).1 as [|d b] eqn:E1.
    { destruct (span (differs RB) s1).2; [done|].
      destruct (Nat.ltb_spec (length mock_lit) (length mock_lit + length (@nil N)))
        as [Hlt|_]; [cbn [length] in Hlt; lia|done]. }
    destruct (span (differs RB) s1).2 as [|e t] eqn:E2; [done|].
    apply span_stop in E2. unfold differs in E2.
    apply negb_false_iff, N.eqb_eq in E2 as ->.
    destruct (Nat.ltb_spec (length mock_lit) (length mock_lit + length (d :: b)))
      as [_|Hle]; [|simpl in Hle; lia].
    simpl andb. cbv iota.
    assert (take (length s - length t) s = (mock_lit ++ d :: b) ++ [RB]) as ->.
    { rewrite Hs, <- Heq.
      replace (mock_lit ++ (d :: b) ++ RB :: t)
        with (((mock_lit ++ d :: b) ++ [RB]) ++ t)
        by (by rewrite <- !app_assoc).
      apply take_consumed. }
    rewrite (exec_tail (fun s' g' => (length s - length s', g'))).
    by destruct (mock_tail t) as [[indent rest]|].
  - pose proof (span_eq (differs RB) s) as Heq.
    destruct (span (differs RB) s).2 as [|e t]; [done|].
    unfold mock_head.
    destruct (starts_with mock_lit (span (differs RB) s).1) eqn:Hx; [|done].
    apply (starts_with_prefix _ _ (e :: t)) in Hx. congruence.
Qed.

End MatcherFacts.

(** ** Scanning a subject *)

Section ScanFacts.
Import PyStr PyRe Shape.

Variable r : regex.

(** The pattern takes at least one character, and no more than there is. *)
Hypothesis Hr : forall s len g,
  match_here r s = Some (len, g) -> 0 < len <= length s.

Lemma match_here_nil : match_here r [] = None.
Proof.
  destruct (match_here r []) as [[len g]|] eqn:E; [|done].
  apply Hr in E. simpl in E. lia.
Qed.

Lemma scan_nil pos skip : scan r [] pos skip = [].
Proof. simpl. rewrite match_here_nil. by destruct skip. Qed.

(** Every match found is a match of the pattern at its start position, and
    lies within the subject, after the characters still to be skipped. *)
Lemma scan_bounds (s : text) : forall pos skip m,
  m ∈ scan r s pos skip ->
  pos + skip <= m_start m /\ m_start m < m_end m <= pos + length s /\
  match_here r (drop (m_start m - pos) s) = Some (m_end m - m_start m, m_groups m).
Proof.
  induction s as [|c s IH]; intros pos skip m Hm.
  { rewrite scan_nil in Hm. by apply elem_of_nil in Hm. }
  assert (forall k, m ∈ scan r s (S pos) k ->
    S pos + k <= m_start m /\ m_start m < m_end m <= pos + length (c :: s) /\
    match_here r (drop (m_start m - pos) (c :: s)) =
      Some (m_end m - m_start m, m_groups m)) as Hrec.
  { intros k Hk. destruct (IH _ _ _ Hk) as (H1 & H2 & H3).
    split; [done|]. split; [simpl; lia|].
    replace (m_start m - pos) with (S (m_start m - S pos)) by lia. done. }
  cbn [scan] in Hm. destruct skip as [|k].
  - destruct (match_here r (c :: s)) as [[len g]|] eqn:E.
    + apply elem_of_cons in Hm as [->|Hm].
      * pose proof (Hr _ _ _ E) as Hlen. cbn [m_start m_end m_groups].
        split; [lia|]. split; [lia|].
        replace (pos - pos) with 0 by lia.
        by replace (pos + len - pos) with len by lia.
      * destruct (Hrec _ Hm) as (H1 & H2 & H3). split; [lia|done].
    + destruct (Hrec _ Hm) as (H1 & H2 & H3). split; [lia|done].
  - destruct (Hrec _ Hm) as (H1 & H2 & H3). split; [lia|done].
Qed.

Lemma scan_stop_ge (s : text) pos skip :
  pos + skip <= scan_stop (scan r s pos skip) (pos + skip).
Proof.
  unfold scan_stop. destruct (last _) as [m|] eqn:E; [|done].
  apply last_Some_elem_of, scan_bounds in E. lia.
Qed.

(** The pattern matches nowhere from that place on. *)
Lemma scan_last_none (s : text) : forall pos skip j,
  scan_stop (scan r s pos skip) (pos + skip) <= pos + j -> j <= length s ->
  match_here r (drop j s) = None.
Proof.
  induction s as [|c s IH]; intros pos skip j He Hj.
  { destruct j; apply match_here_nil. }
  assert (forall k, scan_stop (scan r s (S pos) k) (S pos + k) <= pos + j ->
                    match_here r (drop j (c :: s)) = None) as Hrec.
  { intros k Hk. pose proof (scan_stop_ge s (S pos) k).
    destruct j as [|j]; [lia|]. simpl in Hj.
    apply (IH (S pos) k j); lia. }
  cbn [scan] in He. destruct skip as [|k].
  - destruct (match_here r (c :: s)) as [[len g]|] eqn:E.
    + apply (Hrec (pred len)). pose proof (Hr _ _ _ E) as Hlen.
      unfold scan_stop in *. rewrite last_cons in He.
      destruct (last (scan r s (S pos) (pred len))); simpl in *; lia.
    + destruct j as [|j]; [done|]. apply (Hrec 0).
      unfold scan_stop in *.
      destruct (last (scan r s (S pos) 0)); simpl in *; lia.
  - apply (Hrec k). unfold scan_stop in *.
    destruct (last (scan r s (S pos) k)); simpl in *; lia.
Qed.

(** Skipping is dropping. *)
Lemma sub_scan_skip repl (s : text) : forall pos skip,
  skip <= length s ->
  sub_scan r repl s pos skip = sub_scan r repl (drop skip s) (pos + skip) 0.
Proof.
  induction s as [|c s IH]; intros pos skip Hs.
  - simpl in Hs. replace skip with 0 by lia. by rewrite Nat.add_0_r.
  - destruct skip as [|k]; [by rewrite Nat.add_0_r|].
    cbn [sub_scan drop]. simpl in Hs. rewrite IH by lia. f_equal. lia.
Qed.

End ScanFacts.

(** ** The substitution of [update_tool_registry_mocks.py] *)

Section MockFacts.
Import PyStr PyRe Shape UpdateToolRegistryMocks.

Local Abbreviation msub := (sub pattern replacer).
Local Abbreviation no_RB := (Forall (fun c => differs RB c = true)).
Local Abbreviation spaces := (Forall (fun c => is_space c = true)).

Lemma after_last_spec (c : N) (ws indent : text) :
  after_last c ws = Some indent -> exists ws1, ws = ws1 ++ c :: indent.
Proof.
  revert indent. induction ws as [|d ws IH]; intros indent H; [done|].
  simpl in H. destruct (after_last c ws) as [t|].
  - injection H as <-. destruct (IH t eq_refl) as [ws1 ->]. by exists (d :: ws1).
  - destruct (N.eqb_spec d c) as [->|]; [|done]. injection H as <-. by exists [].
Qed.

Lemma mock_tail_spec (t indent rest : text) :
  mock_tail t = Some (indent, rest) ->
  exists ws1, t = ws1 ++ LF :: indent ++ RB :: rest /\ spaces indent.
Proof.
  unfold mock_tail. intros H.
  pose proof (span_eq is_space t) as Heq.
  pose proof (span_all is_space t) as Hall.
  destruct (span is_space t).2 as [|c rest']; [done|].
  destruct (N.eqb_spec c RB) as [->|]; [|done].
  destruct (after_last LF (span is_space t).1) as [ind|] eqn:E; [|done].
  injection H as <- <-. apply after_last_spec in E as [ws1 E].
  rewrite E in Heq, Hall. exists ws1. split.
  - rewrite <- Heq. by rewrite <- app_assoc.
  - apply Forall_app in Hall as [_ Hall]. by apply Forall_cons in Hall as [_ ?].
Qed.

Lemma mock_match_spec (s method indent rest : text) :
  mock_match s = Some (method, indent, rest) ->
  starts_with mock_lit s = true /\ spaces indent /\
  exists c method' mid, method = c :: method' /\ s = method ++ mid ++ rest.
Proof.
  unfold mock_match. intros H.
  pose proof (span_eq (differs RB) s) as Heq.
  destruct (span (differs RB) s).2 as [|e t] eqn:E2; [done|].
  apply span_stop in E2. unfold differs in E2.
  apply negb_false_iff, N.eqb_eq in E2 as ->.
  destruct (mock_head (span (differs RB) s).1) eqn:Hh; [|done].
  destruct (mock_tail t) as [[ind rest']|] eqn:Ht; [|done].
  injection H as <- <- <-. apply mock_tail_spec in Ht as (ws1 & -> & Hind).
  unfold mock_head in Hh. apply andb_true_iff in Hh as [Hh _].
  split; [rewrite <- Heq; by apply starts_with_prefix|]. split; [done|].
  destruct (span (differs RB) s).1 as [|c x]; [done|].
  exists c, (x ++ [RB]), (ws1 ++ LF :: ind ++ [RB]). split; [done|].
  rewrite <- Heq. simpl. f_equal. rewrite <- !app_assoc. simpl.
  do 2 f_equal. by rewrite <- !app_assoc.
Qed.

(** Cut at the first closing brace, the matcher sees a head and a tail. *)
Lemma mock_match_chunk (x t : text) :
  no_RB x ->
  mock_match (x ++ RB :: t) =
  if mock_head x then
    (fun '(indent, rest) => (x ++ [RB], indent, rest)) <$> mock_tail t
  else None.
Proof.
  intros Hx. unfold mock_match.
  rewrite (span_app (differs RB) x (RB :: t) Hx eq_refl). cbn [fst snd].
  destruct (mock_head x); [|done]. by destruct (mock_tail t) as [[??]|].
Qed.

Lemma mock_match_no_RB (s : text) : no_RB s -> mock_match s = None.
Proof.
  intros Hs. unfold mock_match. rewrite <- (app_nil_r s).
  by rewrite (span_app (differs RB) s [] Hs eq_refl).
Qed.

Lemma chunk_split (s : text) :
  no_RB s \/ exists x t, s = x ++ RB :: t /\ no_RB x.
Proof.
  pose proof (span_eq (differs RB) s) as Heq.
  pose proof (span_all (differs RB) s) as Hall.
  destruct (span (differs RB) s).2 as [|e t] eqn:E2.
  - left. rewrite app_nil_r in Heq. by rewrite <- Heq.
  - right. apply span_stop in E2. unfold differs in E2.
    apply negb_false_iff, N.eqb_eq in E2 as ->. eauto.
Qed.

Lemma mock_pattern_nonempty s len g :
  match_here pattern s = Some (len, g) -> 0 < len <= length s.
Proof.
  rewrite mock_match_ok.
  destruct (mock_match s) as [[[method indent] rest]|] eqn:E; [|done].
  intros [= <- _]. apply mock_match_spec in E as (_ & _ & c & m' & mid & -> & ->).
  rewrite !length_app. simpl. lia.
Qed.

(** The replacement does not look at the position of the match. *)
Lemma msub_pos (s : text) : forall pos pos' skip,
  sub_scan pattern replacer s pos skip = sub_scan pattern replacer s pos' skip.
Proof.
  induction s as [|c s IH]; intros pos pos' skip.
  - by destruct skip.
  - cbn [sub_scan]. destruct skip as [|k]; [|apply IH].
    destruct (match_here pattern (c :: s)) as [[len g]|]; [|f_equal; apply IH].
    f_equal. destruct len; [f_equal|]; apply IH.
Qed.

Lemma msub_nil : msub [] = [].
Proof. reflexivity. Qed.

Lemma msub_cons_none (c : N) (s : text) :
  mock_match (c :: s) = None -> msub (c :: s) = c :: msub s.
Proof.
  intros H. unfold sub. cbn [sub_scan]. rewrite mock_match_ok, H. simpl.
  f_equal. apply msub_pos.
Qed.

Lemma msub_match (s method indent rest : text) :
  mock_match s = Some (method, indent, rest) ->
  msub s = method ++ injected indent ++ msub rest.
Proof.
  intros H. pose proof H as (_ & _ & c & m' & mid & Hm & Hs)%mock_match_spec.
  assert (length s - length rest = S (length (m' ++ mid))) as Hlen.
  { rewrite Hs, Hm, !length_app. simpl. lia. }
  assert (drop (S (length (m' ++ mid))) s = rest) as Hdrop.
  { rewrite Hs, Hm. cbn [app drop]. rewrite app_assoc. apply drop_app_length. }
  destruct s as [|c0 s']; [by rewrite Hm in Hs|].
  unfold sub. cbn [sub_scan]. rewrite mock_match_ok, H.
  cbn [fmap option_fmap option_map]. rewrite Hlen.
  rewrite sub_scan_skip by (cbn [length] in Hlen; lia).
  cbn [drop] in Hdrop. rewrite Hdrop, (msub_pos rest _ 0 0).
  unfold replacer, group, injected. cbn [m_groups lookup_group Nat.eqb].
  by rewrite <- !app_assoc.
Qed.

Lemma msub_no_RB (s : text) : no_RB s -> msub s = s.
Proof.
  induction 1 as [|c s Hc Hs IH]; [done|].
  rewrite msub_cons_none, IH; [done|]. apply mock_match_no_RB. by constructor.
Qed.

Lemma has_head_cons (c : N) (x : text) :
  has_head (c :: x) = mock_head (c :: x) || has_head x.
Proof. done. Qed.

(** The substitution, one closing brace at a time: up to the first closing
    brace the text is kept; a method is injected after it when a head lies
    before it and a tail after it. *)
Lemma msub_chunk (x t : text) :
  no_RB x ->
  msub (x ++ RB :: t) =
  x ++ RB ::
    (if has_head x then
       match mock_tail t with
       | Some (indent, rest) => injected indent ++ msub rest
       | None => msub t
       end
     else msub t).
Proof.
  induction 1 as [|c x Hc Hx IH].
  - cbn [app]. rewrite msub_cons_none; [done|].
    exact (mock_match_chunk [] t (List.Forall_nil _)).
  - pose proof (mock_match_chunk (c :: x) t (Forall_cons_2 _ _ _ Hc Hx)) as Hm.
    rewrite has_head_cons. destruct (mock_head (c :: x)) eqn:Hh.
    + destruct (mock_tail t) as [[indent rest]|] eqn:Ht.
      * rewrite (msub_match _ _ _ _ Hm). cbn [orb app].
        by rewrite <- app_assoc.
      * cbn [app] in *. rewrite (msub_cons_none _ _ Hm), IH.
        by destruct (has_head x).
    + cbn [app orb] in *. by rewrite (msub_cons_none _ _ Hm), IH.
Qed.

Lemma mock_lit_first (s : text) c :
  starts_with mock_lit (c :: s) = true -> c = cp "f".
Proof.
  cbn. intros H. apply andb_true_iff in H as [H _]. by apply N.eqb_eq in H.
Qed.

Lemma msub_space (c : N) (s : text) :
  is_space c = true -> msub (c :: s) = c :: msub s.
Proof.
  intros Hc. apply msub_cons_none.
  destruct (mock_match (c :: s)) as [[[m i] r]|] eqn:E; [|done].
  apply mock_match_spec in E as (Hs & _). apply mock_lit_first in Hs as ->.
  by vm_compute in Hc.
Qed.

Lemma msub_head (c : N) (s : text) : exists s', msub (c :: s) = c :: s'.
Proof.
  destruct (mock_match (c :: s)) as [[[m i] r]|] eqn:E.
  - rewrite (msub_match _ _ _ _ E).
    apply mock_match_spec in E as (_ & _ & d & m' & mid & -> & [= <- _]).
    by eexists.
  - rewrite (msub_cons_none _ _ E). by eexists.
Qed.

Lemma span_space_msub (t : text) :
  span is_space (msub t) = ((span is_space t).1, msub (span is_space t).2).
Proof.
  induction t as [|c t IH]; [done|]. cbn [span].
  destruct (is_space c) eqn:Hc.
  - rewrite (msub_space _ _ Hc). cbn [span]. by rewrite Hc, IH.
  - destruct (msub_head c t) as [s' Hs']. rewrite Hs'. cbn [span fst snd].
    by rewrite Hc, Hs'.
Qed.

(** The substitution leaves alone what decides whether a text is a tail. *)
Lemma mock_tail_msub (t : text) :
  mock_tail t = None -> mock_tail (msub t) = None.
Proof.
  unfold mock_tail. rewrite span_space_msub. cbn [fst snd].
  destruct (span is_space t).2 as [|c rest]; [done|].
  destruct (msub_head c rest) as [s' ->].
  destruct (c =? RB)%N; [|done]. by destruct (after_last LF _).
Qed.

Lemma span_app_stop (p : N -> bool) (a r : text) c :
  p c = false -> (span p (a ++ c :: r)).1 = (span p a).1.
Proof.
  intros Hc. induction a as [|d a IH]; cbn [app span]; [by rewrite Hc|].
  destruct (p d); cbn [fst]; [by rewrite IH|done].
Qed.

Lemma starts_with_of_prefix (p s : text) :
  starts_with p (span (differs RB) s).1 = true -> starts_with p s = true.
Proof.
  intros H. rewrite <- (span_eq (differs RB) s). by apply starts_with_prefix.
Qed.

(** Where the literal opening of the pattern does not occur, nothing is
    replaced. *)
Lemma msub_skip (p r : text) :
  contains mock_lit p = false -> msub (p ++ RB :: r) = p ++ RB :: msub r.
Proof.
  assert (forall a, starts_with mock_lit a = false ->
                    mock_match (a ++ RB :: r) = None) as Hnone.
  { intros a Ha. unfold mock_match, mock_head.
    rewrite (span_app_stop (differs RB) a r RB eq_refl).
    destruct (starts_with mock_lit (span (differs RB) a).1) eqn:E.
    - apply starts_with_of_prefix in E. congruence.
    - by destruct (span (differs RB) (a ++ RB :: r)).2. }
  induction p as [|c p IH]; intros Hp.
  - cbn [app]. by rewrite msub_cons_none by (by apply (Hnone [])).
  - cbn [contains] in Hp. apply orb_false_iff in Hp as [Hc Hp].
    cbn [app]. rewrite msub_cons_none by (by apply (Hnone (c :: p))).
    by rewrite IH.
Qed.

Lemma contains_spaces (ws : text) : spaces ws -> contains mock_lit ws = false.
Proof.
  induction 1 as [|c ws Hc Hws IH]; [done|].
  cbn [contains]. rewrite IH, orb_false_r.
  destruct (starts_with mock_lit (c :: ws)) eqn:E; [|done].
  apply mock_lit_first in E as ->. by vm_compute in Hc.
Qed.

(** The method text as it is laid out: a line break, eight spaces, [fn], and
    a closing brace at its very end. *)
Lemma tsm_opening :
  exists body, TOOL_SCHEMA_METHOD = LF :: replicate 8 (cp " ") ++ cp "f" :: body.
Proof. eexists. vm_compute. reflexivity. Qed.

Lemma tsm_closing :
  TOOL_SCHEMA_METHOD = removelast TOOL_SCHEMA_METHOD ++ [RB] /\
  contains mock_lit (LF :: removelast TOOL_SCHEMA_METHOD) = false.
Proof. split; vm_compute; reflexivity. Qed.

Lemma mock_tail_injected (indent u : text) :
  mock_tail (injected indent ++ u) = None.
Proof.
  unfold injected. destruct tsm_opening as [body ->].
  unfold mock_tail. by vm_compute.
Qed.

Lemma msub_injected (indent u : text) :
  spaces indent -> msub (injected indent ++ u) = injected indent ++ msub u.
Proof.
  intros Hi. destruct tsm_closing as [Hsplit Hno]. unfold injected.
  set (init := removelast TOOL_SCHEMA_METHOD) in *. rewrite Hsplit.
  assert (forall v, ([LF] ++ (init ++ [RB]) ++ [LF] ++ indent ++ [RB]) ++ v =
                    (LF :: init) ++ RB :: ((LF :: indent) ++ RB :: v)) as Hshape.
  { intros v. cbn [app]. rewrite <- !app_assoc. cbn [app].
    by rewrite <- ?app_assoc. }
  rewrite !Hshape, (msub_skip _ _ Hno), msub_skip; [done|].
  apply contains_spaces. by constructor.
Qed.

(** Running the substitution on its own result changes nothing. *)
Lemma msub_idempotent (s : text) : msub (msub s) = msub s.
Proof.
  remember (length s) as n eqn:Hn. revert s Hn.
  induction n as [n IH] using lt_wf_ind. intros s ->.
  destruct (chunk_split s) as [Hs | (x & t & -> & Hx)].
  { by rewrite !(msub_no_RB _ Hs). }
  assert (msub (msub t) = msub t) as IHt.
  { apply (IH (length t)); [rewrite length_app; simpl; lia|done]. }
  rewrite (msub_chunk x t Hx).
  destruct (has_head x) eqn:Hh.
  - destruct (mock_tail t) as [[indent rest]|] eqn:Ht.
    + destruct (mock_tail_spec _ _ _ Ht) as (ws1 & Heq & Hind).
      assert (msub (msub rest) = msub rest) as IHr.
      { apply (IH (length rest)); [|done].
        rewrite Heq. repeat (rewrite length_app; cbn [length]). lia. }
      remember (msub rest) as u eqn:Hu.
      rewrite (msub_chunk x _ Hx), Hh, mock_tail_injected.
      apply (f_equal (fun z => x ++ RB :: z)).
      etrans; [exact (msub_injected _ u Hind)|].
      exact (f_equal (app (injected indent)) IHr).
    + rewrite (msub_chunk x _ Hx), Hh, (mock_tail_msub _ Ht). by rewrite IHt.
  - rewrite (msub_chunk x _ Hx), Hh. by rewrite IHt.
Qed.

End MockFacts.

(** ** The two loops *)

Section LoopFacts.
Import PyStr PyRe PyIO Shape.

Local Open Scope string_scope.
Local Open Scope list_scope.

Ltac io_unfold :=
  unfold AddJsonImports.iteration, AddJsonImports.process,
    UpdateToolRegistryMocks.iteration, UpdateToolRegistryMocks.process,
    try_except, io_bind, read_text, write_text, print.

(** One turn of the loop of [add_json_imports.py]: it never raises, and it
    touches the files only through the write described by
    [add_json_rewrite]. *)
Lemma add_iteration_effect (p : string) (w : world) :
  (AddJsonImports.iteration p w).1 = Ok tt /\
  fs (AddJsonImports.iteration p w).2 = fs_after add_json_rewrite p w /\
  writes (AddJsonImports.iteration p w).2 = writes_after add_json_rewrite p w.
Proof.
  unfold fs_after, writes_after, written, add_json_rewrite. io_unfold.
  destruct (fs w !! p) as [f|] eqn:E; [|done].
  destruct (f_read_error f) as [er|] eqn:Er; [done|].
  destruct (contains _ _ || negb (contains _ _)).
  { by destruct (f_write_error f). }
  destruct (last (finditer AddJsonImports.use_pattern (f_text f))) as [m|].
  - rewrite E, Er. by destruct (f_write_error f).
  - by destruct (f_write_error f).
Qed.

Lemma mock_iteration_effect (p : string) (w : world) :
  (UpdateToolRegistryMocks.iteration p w).1 = Ok tt /\
  fs (UpdateToolRegistryMocks.iteration p w).2 = fs_after mock_rewrite p w /\
  writes (UpdateToolRegistryMocks.iteration p w).2 = writes_after mock_rewrite p w.
Proof.
  unfold fs_after, writes_after, written, mock_rewrite. io_unfold.
  destruct (fs w !! p) as [f|] eqn:E; [|done].
  destruct (f_read_error f) as [er|] eqn:Er; [by destruct er|].
  destruct (decide (_ = f_text f)).
  { by destruct (f_write_error f). }
  rewrite E, Er. by destruct (f_write_error f) as [[]|].
Qed.

(** *** A loop whose turns rewrite files

    Both loops have the same shape: a turn at [p] never raises and leaves
    the files as [fs_after rewrite p] says, for a [rewrite] that has nothing
    more to do on its own result. *)
Section Rewriting.

Variable rewrite : text -> option text.
Variable iter : string -> IO unit.

Hypothesis Hfix : forall c new, rewrite c = Some new -> rewrite new = None.
Hypothesis Hiter : forall p w,
  (iter p w).1 = Ok tt /\
  fs (iter p w).2 = fs_after rewrite p w /\
  writes (iter p w).2 = writes_after rewrite p w.

Lemma written_fs p (w w' : world) :
  fs w = fs w' -> written rewrite p w = written rewrite p w'.
Proof. unfold written. by intros ->. Qed.

Lemma iter_idle p w :
  written rewrite p w = None ->
  fs (iter p w).2 = fs w /\ writes (iter p w).2 = writes w.
Proof.
  intros H. destruct (Hiter p w) as (_ & -> & ->).
  unfold fs_after, writes_after. by rewrite H.
Qed.

(** After a turn at [p] there is nothing left to write at [p]. *)
Lemma iter_settles p w : written rewrite p (iter p w).2 = None.
Proof.
  destruct (written rewrite p w) as [new|] eqn:E.
  - unfold written at 1. destruct (Hiter p w) as (_ & -> & _).
    unfold fs_after. rewrite E, lookup_insert_eq. cbn.
    unfold written in E. destruct (fs w !! p) as [f|]; [|done].
    destruct (f_read_error f), (f_write_error f); try done. by eapply Hfix.
  - rewrite <- E. apply written_fs. by apply iter_idle.
Qed.

Lemma iter_keeps p p' w :
  written rewrite p w = None -> written rewrite p (iter p' w).2 = None.
Proof.
  intros H. destruct (decide (p' = p)) as [->|Hne]; [apply iter_settles|].
  rewrite <- H. unfold written. destruct (Hiter p' w) as (_ & -> & _).
  unfold fs_after. destruct (written rewrite p' w); [|done].
  by rewrite lookup_insert_ne.
Qed.


Lemma for_in_cons p ps w :
  for_in (p :: ps) iter w = for_in ps iter (iter p w).2.
Proof.
  cbn [for_in]. unfold io_bind. destruct (Hiter p w) as (Hok & _).
  by destruct (iter p w) as [[[]|e] w'].
Qed.


Lemma run_keeps p ps w :
  written rewrite p w = None -> written rewrite p (for_in ps iter w).2 = None.
Proof.
  revert w. induction ps as [|p' ps IH]; intros w H; [done|].
  rewrite for_in_cons. by apply IH, iter_keeps.
Qed.

Lemma run_settles ps w p :
  p ∈ ps -> written rewrite p (for_in ps iter w).2 = None.
Proof.
  revert w. induction ps as [|p' ps IH]; intros w Hp.
  { by apply elem_of_nil in Hp. }
  rewrite for_in_cons. apply elem_of_cons in Hp as [->|Hp].
  - apply run_keeps, iter_settles.
  - by apply IH.
Qed.

Lemma run_idle ps w :
  (forall p, p ∈ ps -> written rewrite p w = None) ->
  fs (for_in ps iter w).2 = fs w /\ writes (for_in ps iter w).2 = writes w.
Proof.
  revert w. induction ps as [|p ps IH]; intros w H; [done|].
  rewrite for_in_cons.
  destruct (iter_idle p w) as [Hfs Hwr]; [apply H; by left|].
  rewrite <- Hfs, <- Hwr. apply IH. intros p' Hp'.
  rewrite (written_fs p' _ w Hfs). apply H. by right.
Qed.

(** A second run of the whole loop writes nothing. *)
Lemma run_twice ps w :
  fs (for_in ps iter (for_in ps iter w).2).2 = fs (for_in ps iter w).2 /\
  writes (for_in ps iter (for_in ps iter w).2).2 = writes (for_in ps iter w).2.
Proof. apply run_idle. intros p Hp. by apply run_settles. Qed.

End Rewriting.

Lemma contains_unfold (n hay : text) :
  contains n hay =
  starts_with n hay || match hay with [] => false | _ :: h => contains n h end.
Proof. by destruct hay. Qed.

Lemma contains_app_r (n a b : text) :
  contains n b = true -> contains n (a ++ b) = true.
Proof.
  intros H. induction a as [|c a IH]; [done|].
  cbn [app contains]. by rewrite IH, orb_true_r.
Qed.

Lemma contains_middle (n a b : text) : contains n (a ++ n ++ b) = true.
Proof.
  apply contains_app_r. by rewrite contains_unfold, starts_with_app.
Qed.

Lemma add_json_rewrite_fix (c new : text) :
  add_json_rewrite c = Some new -> add_json_rewrite new = None.
Proof.
  unfold add_json_rewrite at 1.
  destruct (contains _ c || negb (contains _ c)); [done|].
  destruct (last _) as [m|]; [|done]. intros H.
  assert (new = take (m_end m) c ++ AddJsonImports.import_line ++
                drop (m_end m) c) as -> by congruence.
  unfold add_json_rewrite, AddJsonImports.import_line.
  by rewrite <- (app_assoc (cps "use serde_json::json;")), contains_middle.
Qed.

Lemma mock_rewrite_fix (c new : text) :
  mock_rewrite c = Some new -> mock_rewrite new = None.
Proof.
  unfold mock_rewrite. destruct (decide _); [done|]. intros [= <-].
  destruct (decide _) as [|Hne]; [done|]. destruct Hne. apply msub_idempotent.
Qed.

End LoopFacts.

(** ** The codemods *)

Section CodemodFacts.
Import PyStr PyRe PyIO Shape Samples.

Local Open Scope string_scope.
Local Open Scope list_scope.

Lemma use_match_spec (s stmt rest : text) :
  use_match s = Some (stmt, rest) ->
  exists body, s = (cps "use " ++ body ++ [cp ";"; LF]) ++ rest /\
               stmt = cps "use " ++ body ++ [cp ";"] /\
               body <> [] /\ Forall (fun d => d <> cp ";") body.
Proof.
  unfold use_match. destruct (starts_with (cps "use ") s) eqn:Hs; [|done].
  apply starts_with_inv in Hs. change (length (cps "use ")) with 4 in Hs.
  destruct (until (cp ";") (drop 4 s)) as [[b t]|] eqn:Hu; [|done].
  apply until_spec in Hu as (Hu & Hb & Hall).
  destruct t as [|d t]; [done|].
  destruct (N.eqb_spec d LF) as [->|]; [|done].
  intros H. assert (stmt = cps "use " ++ b ++ [cp ";"] /\ rest = t) as [-> ->]
    by (split; congruence).
  exists b. split; [|done]. rewrite Hs at 1. rewrite Hu.
  by rewrite <- !app_assoc.
Qed.

Lemma use_pattern_nonempty s len g :
  match_here AddJsonImports.use_pattern s = Some (len, g) -> 0 < len <= length s.
Proof.
  rewrite use_match_ok. destruct (use_match s) as [[stmt rest]|] eqn:E; [|done].
  intros H. assert (len = length s - length rest) as -> by (cbn in H; congruence).
  apply use_match_spec in E as (body & -> & _).
  rewrite !length_app. cbn [length]. lia.
Qed.

(** What [add_json_imports.py] writes, when it writes: the content with the
    import line put right after a use statement and its line feed, after
    which the pattern matches nowhere. *)
Lemma add_json_rewrite_shape (content new : text) :
  add_json_rewrite content = Some new ->
  exists pre body post,
    content = pre ++ (cps "use " ++ body ++ [cp ";"; LF]) ++ post /\
    new = pre ++ (cps "use " ++ body ++ [cp ";"; LF]) ++
          AddJsonImports.import_line ++ post /\
    body <> [] /\ Forall (fun d => d <> cp ";") body /\
    forall j, match_here AddJsonImports.use_pattern (drop j post) = None.
Proof.
  unfold add_json_rewrite.
  destruct (contains _ content || negb (contains _ content)); [done|].
  destruct (last (finditer AddJsonImports.use_pattern content)) as [m|] eqn:El;
    [|done].
  intros H.
  assert (new = take (m_end m) content ++ AddJsonImports.import_line ++
                drop (m_end m) content) as -> by congruence. clear H.
  pose proof (scan_bounds _ use_pattern_nonempty content 0 0 m
                (last_Some_elem_of _ _ El)) as (_ & Hpos & Hm).
  rewrite Nat.sub_0_r, use_match_ok in Hm.
  destruct (use_match (drop (m_start m) content)) as [[stmt rest]|] eqn:Eu;
    [|done].
  assert (m_end m - m_start m = length (drop (m_start m) content) - length rest)
    as Hlen by (cbn in Hm; congruence).
  apply use_match_spec in Eu as (body & Hdrop & _ & Hbody & Hall).
  set (stmt_nl := cps "use " ++ body ++ [cp ";"; LF]) in *.
  set (pre := take (m_start m) content).
  assert (content = (pre ++ stmt_nl) ++ rest) as Hc.
  { rewrite <- app_assoc, <- Hdrop. unfold pre. by rewrite take_drop. }
  assert (m_end m = length (pre ++ stmt_nl)) as He.
  { rewrite Hdrop, length_app in Hlen.
    rewrite length_app. unfold pre. rewrite length_take. lia. }
  assert (take (m_end m) content = pre ++ stmt_nl) as Htake
    by (rewrite Hc, He; apply take_app_length).
  assert (forall j, drop (m_end m + j) content = drop j rest) as Hdropj.
  { intros j. rewrite Hc, He. by rewrite drop_app_add'. }
  exists pre, body, rest.
  split; [by rewrite <- app_assoc in Hc|].
  split.
  { assert (drop (m_end m) content = rest) as ->
      by (rewrite <- (Nat.add_0_r (m_end m)); apply (Hdropj 0)).
    rewrite Htake. fold stmt_nl. by rewrite <- app_assoc. }
  split; [done|]. split; [done|]. intros j.
  destruct (decide (j <= length rest)) as [Hj|Hj].
  - rewrite <- Hdropj.
    apply (scan_last_none _ use_pattern_nonempty content 0 0).
    + fold (finditer AddJsonImports.use_pattern content).
      unfold scan_stop. rewrite El. lia.
    + rewrite Hc, length_app. lia.
  - rewrite drop_ge by lia. apply (match_here_nil _ use_pattern_nonempty).
Qed.

Lemma written_Some (rw : text -> option text) (p : string) (w : world) new :
  written rw p w = Some new ->
  exists f, fs w !! p = Some f /\ f_read_error f = None /\
            f_write_error f = None /\ rw (f_text f) = Some new.
Proof.
  unfold written. destruct (fs w !! p) as [f|]; [|done].
  destruct (f_read_error f) eqn:Er, (f_write_error f) eqn:Ew; try done.
  by exists f.
Qed.

Lemma add_json_rewrite_cond (c new : text) :
  add_json_rewrite c = Some new ->
  contains (cps "serde_json::json!") c = true /\
  contains (cps "use serde_json::json;") c = false /\
  exists m, last (finditer AddJsonImports.use_pattern c) = Some m /\
            new = take (m_end m) c ++ AddJsonImports.import_line ++
                  drop (m_end m) c.
Proof.
  unfold add_json_rewrite.
  destruct (contains (cps "use serde_json::json;") c); [done|].
  destruct (contains (cps "serde_json::json!") c); [|done]. cbn [orb negb].
  destruct (last _) as [m|]; [|done]. intros H.
  split; [done|]. split; [done|]. exists m. split; [done|]. congruence.
Qed.

Lemma mock_rewrite_cond (c new : text) :
  mock_rewrite c = Some new ->
  new = sub UpdateToolRegistryMocks.pattern UpdateToolRegistryMocks.replacer c /\
  new <> c.
Proof.
  unfold mock_rewrite. destruct (decide _) as [|Hne]; [done|].
  intros H. assert (new = sub UpdateToolRegistryMocks.pattern
                            UpdateToolRegistryMocks.replacer c) as ->
    by congruence. done.
Qed.

Lemma fs_after_other (rw : text -> option text) (p p' : string) (w : world) :
  p' <> p -> fs_after rw p w !! p' = fs w !! p'.
Proof.
  intros Hne. unfold fs_after. destruct (written rw p w); [|done].
  by rewrite lookup_insert_ne.
Qed.




(** C3, as the claim states it for [update_tool_registry_mocks.py], fails:
    a file that already holds the injected method, and a mock that does not
    have it yet, is rewritten. *)
Lemma method_present_yet_rewritten :
  let w := world_of [("m.rs", half_done)] in
  fs w !! "m.rs" = Some (File half_done None None) /\
  contains UpdateToolRegistryMocks.TOOL_SCHEMA_METHOD half_done = true /\
  fs (UpdateToolRegistryMocks.iteration "m.rs" w).2 !! "m.rs" <> fs w !! "m.rs".
Proof.
  cbv zeta. split; [by vm_compute|]. split; [by vm_compute|].
  intros H. vm_compute in H. discriminate H.
Qed.

(** C3, amended: a turn of [add_json_imports.py] on a file that already holds
    the import line leaves the files as they are; for both scripts a second
    turn on the same path, and a second run over any list of paths, leaves
    the files as the first left them and writes nothing; and the
    substitution of [update_tool_registry_mocks.py] applied to its own
    result gives it back. *)
Theorem codemods_idempotent :
  (forall (w : world) (p : string) (f : file),
     fs w !! p = Some f ->
     contains (cps "use serde_json::json;") (f_text f) = true ->
     fs (AddJsonImports.iteration p w).2 = fs w /\
     writes (AddJsonImports.iteration p w).2 = writes w) /\
  (forall (w : world) (p : string),
     fs (AddJsonImports.iteration p (AddJsonImports.iteration p w).2).2 =
       fs (AddJsonImports.iteration p w).2 /\
     writes (AddJsonImports.iteration p (AddJsonImports.iteration p w).2).2 =
       writes (AddJsonImports.iteration p w).2) /\
  (forall (w : world) (p : string),
     fs (UpdateToolRegistryMocks.iteration p
           (UpdateToolRegistryMocks.iteration p w).2).2 =
       fs (UpdateToolRegistryMocks.iteration p w).2 /\
     writes (UpdateToolRegistryMocks.iteration p
               (UpdateToolRegistryMocks.iteration p w).2).2 =
       writes (UpdateToolRegistryMocks.iteration p w).2) /\
  (forall (w : world) (ps : list string),
     fs (AddJsonImports.run_on ps (AddJsonImports.run_on ps w).2).2 =
       fs (AddJsonImports.run_on ps w).2 /\
     writes (AddJsonImports.run_on ps (AddJsonImports.run_on ps w).2).2 =
       writes (AddJsonImports.run_on ps w).2) /\
  (forall (w : world) (ps : list string),
     fs (UpdateToolRegistryMocks.run_on ps
           (UpdateToolRegistryMocks.run_on ps w).2).2 =
       fs (UpdateToolRegistryMocks.run_on ps w).2 /\
     writes (UpdateToolRegistryMocks.run_on ps
               (UpdateToolRegistryMocks.run_on ps w).2).2 =
       writes (UpdateToolRegistryMocks.run_on ps w).2) /\
  (forall content : text,
     sub UpdateToolRegistryMocks.pattern UpdateToolRegistryMocks.replacer
       (sub UpdateToolRegistryMocks.pattern UpdateToolRegistryMocks.replacer
          content) =
     sub UpdateToolRegistryMocks.pattern UpdateToolRegistryMocks.replacer
       content).
Proof.
  split; [|split; [|split; [|split; [|split]]]].
  - intros w p f Hf Hin.
    apply (iter_idle _ _ add_iteration_effect).
    unfold written, add_json_rewrite. rewrite Hf, Hin.
    by destruct (f_read_error f), (f_write_error f).
  - intros w p.
    apply (iter_idle _ _ add_iteration_effect),
      (iter_settles _ _ add_json_rewrite_fix add_iteration_effect).
  - intros w p.
    apply (iter_idle _ _ mock_iteration_effect),
      (iter_settles _ _ mock_rewrite_fix mock_iteration_effect).
  - intros w ps.
    apply (run_twice _ _ add_json_rewrite_fix add_iteration_effect).
  - intros w ps.
    apply (run_twice _ _ mock_rewrite_fix mock_iteration_effect).
  - apply msub_idempotent.
Qed.

Lemma codemods_idempotent_witness :
  let w := (AddJsonImports.iteration "a.rs" (world_of [("a.rs", with_uses)])).2 in
  fs (AddJsonImports.iteration "a.rs" w).2 = fs w /\
  writes (AddJsonImports.iteration "a.rs" w).2 = writes w.
Proof.
  cbv zeta.
  eapply (proj1 codemods_idempotent); [vm_compute; reflexivity|].
  vm_compute. reflexivity.
Defined.

(** C4, as the claim states it for [update_tool_registry_mocks.py], fails:
    the method text is in the file, and the file is written all the same. *)
Lemma method_present_yet_written :
  let w := world_of [("m.rs", half_done)] in
  contains UpdateToolRegistryMocks.TOOL_SCHEMA_METHOD half_done = true /\
  writes w = [] /\
  exists new, new <> half_done /\
    writes (UpdateToolRegistryMocks.iteration "m.rs" w).2 = [("m.rs", new)].
Proof.
  cbv zeta. split; [by vm_compute|]. split; [done|].
  eexists. split; [|vm_compute; reflexivity].
  intros H. apply (f_equal length) in H. vm_compute in H. discriminate H.
Qed.

(** C4, amended: on a file that is read without error, [add_json_imports.py] tests whether the
    import line is in the content and, when it is, prints its skip line and
    writes nothing. [update_tool_registry_mocks.py] does not test for the
    method text: it skips the write when the substitution gives the content
    back, and writes the new content when it does not. *)
Theorem write_guards (w : world) (p : string) (f : file) :
  fs w !! p = Some f -> f_read_error f = None ->
  (contains (cps "use serde_json::json;") (f_text f) = true ->
   AddJsonImports.iteration p w =
   (Ok tt,
    World (fs w)
      (stdout w ++
       ["- Skipped " +:+ p +:+ " (no json! macro or already imported)"])
      (writes w))) /\
  (sub UpdateToolRegistryMocks.pattern UpdateToolRegistryMocks.replacer
     (f_text f) = f_text f ->
   UpdateToolRegistryMocks.iteration p w =
   (Ok tt,
    World (fs w) (stdout w ++ ["- Skipped " +:+ p +:+ " (no changes needed)"])
      (writes w))) /\
  (sub UpdateToolRegistryMocks.pattern UpdateToolRegistryMocks.replacer
     (f_text f) <> f_text f ->
   f_write_error f = None ->
   let new_content :=
     sub UpdateToolRegistryMocks.pattern UpdateToolRegistryMocks.replacer
       (f_text f) in
   UpdateToolRegistryMocks.iteration p w =
   (Ok tt,
    World (<[p := File new_content None None]> (fs w))
      (stdout w ++ ["✓ Updated " +:+ p])
      (writes w ++ [(p, new_content)]))).
Proof.
  intros Hf Hr.
  unfold AddJsonImports.iteration, AddJsonImports.process,
    UpdateToolRegistryMocks.iteration, UpdateToolRegistryMocks.process,
    try_except, io_bind, read_text, write_text, print.
  rewrite Hf, Hr. split; [|split].
  - by intros ->.
  - intros Heq. by destruct (decide _).
  - intros Hne Hw. cbv zeta. destruct (decide _); [done|].
    by rewrite Hf, Hr, Hw.
Qed.

Lemma write_guards_witness :
  let w := world_of [("m.rs", half_done)] in
  UpdateToolRegistryMocks.iteration "m.rs" w =
  (Ok tt,
   World
     (<["m.rs" := File (sub UpdateToolRegistryMocks.pattern
                          UpdateToolRegistryMocks.replacer half_done)
                   None None]> (fs w))
     (stdout w ++ ["✓ Updated m.rs"])
     (writes w ++
      [("m.rs", sub UpdateToolRegistryMocks.pattern
                  UpdateToolRegistryMocks.replacer half_done)])).
Proof.
  cbv zeta.
  refine (proj2 (proj2 (write_guards (world_of [("m.rs", half_done)]) "m.rs"
                          (File half_done None None) _ _)) _ _).
  - vm_compute. reflexivity.
  - reflexivity.
  - intros H. apply (f_equal length) in H. vm_compute in H. discriminate H.
  - reflexivity.
Defined.



(** *** Stored files: line ends *)

Lemma to_linesep_app (linesep a b : text) :
  OnDisk.to_linesep linesep (a ++ b) =
  OnDisk.to_linesep linesep a ++ OnDisk.to_linesep linesep b.
Proof. apply flat_map_app. Qed.

(** Where the line separator is LF, a write stores the text as it is. *)
Lemma to_linesep_posix (data : text) : OnDisk.to_linesep [LF] data = data.
Proof.
  induction data as [|c data IH]; [done|].
  unfold OnDisk.to_linesep in *. cbn [flat_map].
  destruct (N.eqb_spec c LF) as [->|_]; cbn [app]; by rewrite IH.
Qed.

(** A file that stores no CR is read as it is. *)
Lemma universal_newlines_clean (raw : text) :
  Forall (fun c => c <> OnDisk.CR) raw -> OnDisk.universal_newlines raw = raw.
Proof.
  induction 1 as [|c raw Hc _ IH]; [done|].
  cbn [OnDisk.universal_newlines].
  destruct (N.eqb_spec c OnDisk.CR) as [->|_]; [done|]. by rewrite IH.
Qed.

(** On such a file, where the line separator is LF and every path leads to
    itself, the two calls are those of [PyIO]. *)
Lemma open_read_clean (p : string) (w : world) (f : file) :
  fs w !! p = Some f -> Forall (fun c => c <> OnDisk.CR) (f_text f) ->
  OnDisk.open_read id p w = read_text p w.
Proof.
  intros Hf Hc. unfold OnDisk.open_read, read_text, id. rewrite Hf.
  by rewrite universal_newlines_clean.
Qed.

Lemma open_write_posix (p : string) (data : text) (w : world) :
  OnDisk.open_write id [LF] p data w = write_text p data w.
Proof.
  unfold OnDisk.open_write, write_text, id. by rewrite to_linesep_posix.
Qed.

Ltac no_write H :=
  cbn [snd writes] in H; apply (f_equal length) in H;
  rewrite length_app in H; cbn [length] in H; lia.

(** A turn of [add_json_imports.py] on stored files that writes: the text
    given to the write is what [add_json_rewrite] makes of the text as read,
    and the file the path leads to then stores it with the line separator of
    the platform. *)
Lemma disk_add_iteration_writes
    (resolve : string -> string) (linesep : text)
    (w : world) (p p' : string) (data : text) :
  writes (OnDisk.add_json_iteration resolve linesep p w).2 =
    writes w ++ [(p', data)] ->
  exists f : file,
    p' = p /\ fs w !! resolve p = Some f /\
    add_json_rewrite (OnDisk.universal_newlines (f_text f)) = Some data /\
    fs (OnDisk.add_json_iteration resolve linesep p w).2 =
      <[resolve p := File (OnDisk.to_linesep linesep data) None None]> (fs w).
Proof.
  unfold OnDisk.add_json_iteration, OnDisk.add_json_process,
    try_except, io_bind, OnDisk.open_read, OnDisk.open_write, print.
  destruct (fs w !! resolve p) as [f|] eqn:E; [|intros H; no_write H].
  intros H. exists f. revert H. unfold add_json_rewrite.
  destruct (f_read_error f) as [er|] eqn:Er; [intros H; no_write H|].
  destruct (contains _ _ || negb (contains _ _)); [intros H; no_write H|].
  destruct (last _) as [m|]; [|intros H; no_write H].
  rewrite E, Er. destruct (f_write_error f) as [ew|]; [intros H; no_write H|].
  cbn [snd writes fs]. intros H. apply app_inv_head in H.
  injection H as <- <-. done.
Qed.

(** C7, as the claim states it, fails on a file with the line ends of
    Windows where the line separator is LF: the turn writes, and what the
    file then stores is not what it stored with the import line put in
    somewhere, since every CR LF of the file has become LF. *)
Lemma crlf_line_ends_rewritten :
  let w := world_of [("a.rs", OnDisk.with_uses_crlf)] in
  fs w !! "a.rs" = Some (File OnDisk.with_uses_crlf None None) /\
  fs (OnDisk.add_json_iteration id [LF] "a.rs" w).2 !! "a.rs" =
    Some (File OnDisk.with_uses_imported None None) /\
  ~ exists pre post : text,
      OnDisk.with_uses_crlf = pre ++ post /\
      OnDisk.with_uses_imported = pre ++ AddJsonImports.import_line ++ post.
Proof.
  cbv zeta. split; [by vm_compute|]. split; [by vm_compute|].
  intros (pre & post & Hold & Hnew).
  apply (f_equal length) in Hold, Hnew.
  rewrite length_app in Hold. rewrite !length_app in Hnew.
  assert (length OnDisk.with_uses_imported + 4 =
          length OnDisk.with_uses_crlf + 22)
    as Hlen by (by vm_compute).
  assert (length AddJsonImports.import_line = 22) as Himp by (by vm_compute).
  lia.
Qed.

(** C7, amended: when a turn of [add_json_imports.py] writes, the text given
    to the write is the text as read, that is the file's characters with
    every line end turned into LF, with the line [use serde_json::json;] put
    in right after a text matched by the use pattern, statement and line
    feed; the pattern matches nowhere after that point, so the statement is
    the last one matched. The file then stores that text with every LF
    turned into the line separator: what came before the insertion, the
    import line, and what came after. When the file already had its line
    ends in that form, its characters before and after the insertion are as
    they were. *)
Theorem import_inserted_after_last_use
    (resolve : string -> string) (linesep : text)
    (w : world) (p p' : string) (data : text) :
  writes (OnDisk.add_json_iteration resolve linesep p w).2 =
    writes w ++ [(p', data)] ->
  exists (f : file) (pre body post : text),
    p' = p /\ fs w !! resolve p = Some f /\
    OnDisk.universal_newlines (f_text f) =
      pre ++ (cps "use " ++ body ++ [cp ";"; LF]) ++ post /\
    data = pre ++ (cps "use " ++ body ++ [cp ";"; LF]) ++
           (cps "use serde_json::json;" ++ [LF]) ++ post /\
    body <> [] /\ Forall (fun d => d <> cp ";") body /\
    (forall j, match_here AddJsonImports.use_pattern (drop j post) = None) /\
    f_text <$> fs (OnDisk.add_json_iteration resolve linesep p w).2
                 !! resolve p =
      Some (OnDisk.to_linesep linesep pre ++
            OnDisk.to_linesep linesep (cps "use " ++ body ++ [cp ";"; LF]) ++
            (cps "use serde_json::json;" ++ linesep) ++
            OnDisk.to_linesep linesep post) /\
    (OnDisk.to_linesep linesep (OnDisk.universal_newlines (f_text f)) =
       f_text f ->
     f_text f =
       OnDisk.to_linesep linesep pre ++
       OnDisk.to_linesep linesep (cps "use " ++ body ++ [cp ";"; LF]) ++
       OnDisk.to_linesep linesep post).
Proof.
  intros H.
  apply disk_add_iteration_writes in H as (f & -> & Hf & Hrw & ->).
  apply add_json_rewrite_shape in Hrw
    as (pre & body & post & Hc & Hnew & Hb & Hall & Hlast).
  exists f, pre, body, post.
  split; [done|]. split; [done|]. split; [done|]. split; [done|].
  split; [done|]. split; [done|]. split; [done|]. split.
  - rewrite lookup_insert_eq. cbn [fmap option_fmap option_map f_text].
    rewrite Hnew, !to_linesep_app. do 3 f_equal.
    unfold AddJsonImports.import_line. rewrite to_linesep_app. f_equal.
    unfold OnDisk.to_linesep. cbn [flat_map]. by rewrite app_nil_r.
  - intros <-. by rewrite Hc, !to_linesep_app.
Qed.

Lemma import_inserted_after_last_use_witness :
  exists (f : file) (pre body post : text),
    "a.rs" = "a.rs" /\
    fs (world_of [("a.rs", with_uses)]) !! id "a.rs" = Some f /\
    OnDisk.universal_newlines (f_text f) =
      pre ++ (cps "use " ++ body ++ [cp ";"; LF]) ++ post /\
    OnDisk.with_uses_imported =
      pre ++ (cps "use " ++ body ++ [cp ";"; LF]) ++
      (cps "use serde_json::json;" ++ [LF]) ++ post /\
    body <> [] /\ Forall (fun d => d <> cp ";") body /\
    (forall j, match_here AddJsonImports.use_pattern (drop j post) = None) /\
    f_text <$> fs (OnDisk.add_json_iteration id [LF] "a.rs"
                     (world_of [("a.rs", with_uses)])).2 !! id "a.rs" =
      Some (OnDisk.to_linesep [LF] pre ++
            OnDisk.to_linesep [LF] (cps "use " ++ body ++ [cp ";"; LF]) ++
            (cps "use serde_json::json;" ++ [LF]) ++
            OnDisk.to_linesep [LF] post) /\
    (OnDisk.to_linesep [LF] (OnDisk.universal_newlines (f_text f)) =
       f_text f ->
     f_text f =
       OnDisk.to_linesep [LF] pre ++
       OnDisk.to_linesep [LF] (cps "use " ++ body ++ [cp ";"; LF]) ++
       OnDisk.to_linesep [LF] post).
Proof.
  apply (import_inserted_after_last_use id [LF]
           (world_of [("a.rs", with_uses)]) "a.rs" "a.rs").
  vm_compute. reflexivity.
Defined.

(** C10: a turn of either script leaves the files and the record of writes
    as they were, or writes once, at its own path; and it writes only when
    its condition holds: for [add_json_imports.py] the content holds
    [serde_json::json!], does not hold [use serde_json::json;], and the use
    pattern matches somewhere; for [update_tool_registry_mocks.py] the
    substitution changes the content. *)
Theorem writes_only_when_transformed (w : world) (p : string) :
  ((fs (AddJsonImports.iteration p w).2 = fs w /\
    writes (AddJsonImports.iteration p w).2 = writes w) \/
   exists (f : file) (m : rmatch),
     fs w !! p = Some f /\
     contains (cps "serde_json::json!") (f_text f) = true /\
     contains (cps "use serde_json::json;") (f_text f) = false /\
     last (finditer AddJsonImports.use_pattern (f_text f)) = Some m /\
     writes (AddJsonImports.iteration p w).2 =
       writes w ++
       [(p, take (m_end m) (f_text f) ++ AddJsonImports.import_line ++
            drop (m_end m) (f_text f))] /\
     forall p', p' <> p ->
       fs (AddJsonImports.iteration p w).2 !! p' = fs w !! p') /\
  ((fs (UpdateToolRegistryMocks.iteration p w).2 = fs w /\
    writes (UpdateToolRegistryMocks.iteration p w).2 = writes w) \/
   exists f : file,
     fs w !! p = Some f /\
     sub UpdateToolRegistryMocks.pattern UpdateToolRegistryMocks.replacer
       (f_text f) <> f_text f /\
     writes (UpdateToolRegistryMocks.iteration p w).2 =
       writes w ++
       [(p, sub UpdateToolRegistryMocks.pattern
              UpdateToolRegistryMocks.replacer (f_text f))] /\
     forall p', p' <> p ->
       fs (UpdateToolRegistryMocks.iteration p w).2 !! p' = fs w !! p').
Proof.
  split.
  - destruct (add_iteration_effect p w) as (_ & Hfs & Hwr). rewrite Hfs, Hwr.
    destruct (written add_json_rewrite p w) as [new|] eqn:E.
    + right. pose proof E as (f & Hf & _ & _ & Hrw)%written_Some.
      apply add_json_rewrite_cond in Hrw as (Hmacro & Himp & m & Hm & ->).
      exists f, m. unfold writes_after. rewrite E.
      repeat (split; [done|]). intros p' Hp'. by apply fs_after_other.
    + left. unfold fs_after, writes_after. by rewrite E.
  - destruct (mock_iteration_effect p w) as (_ & Hfs & Hwr). rewrite Hfs, Hwr.
    destruct (written mock_rewrite p w) as [new|] eqn:E.
    + right. pose proof E as (f & Hf & _ & _ & Hrw)%written_Some.
      apply mock_rewrite_cond in Hrw as (-> & Hne).
      exists f. unfold writes_after. rewrite E.
      repeat (split; [done|]). intros p' Hp'. by apply fs_after_other.
    + left. unfold fs_after, writes_after. by rewrite E.
Qed.

End CodemodFacts.

(** * Further properties *)

(** ** The series and the console program *)

Section FibonacciMore.
Import Fibonacci FibSeq.
Local Open Scope Z_scope.

Lemma fib_step (k : nat) : fib (S (S k)) = fib (S k) + fib k.
Proof. unfold fib. simpl. lia. Qed.

Lemma fib_nonneg (k : nat) : 0 <= fib k /\ 0 <= fib (S k).
Proof.
  induction k as [|k [IH1 IH2]]; [by vm_compute|].
  rewrite fib_step. lia.
Qed.

Lemma fib_mono_step (k : nat) : (1 <= k)%nat -> fib k <= fib (S k).
Proof.
  destruct k as [|k]; [lia|]. intros _. rewrite fib_step.
  pose proof (fib_nonneg k). lia.
Qed.

Lemma fib_mono (i j : nat) : (i <= j)%nat -> fib i <= fib j.
Proof.
  induction 1 as [|j Hij IH]; [lia|].
  destruct (decide (j = 0%nat)) as [->|Hj].
  - assert (i = 0%nat) as -> by lia. by vm_compute.
  - pose proof (fib_mono_step j). lia.
Qed.

Lemma first_fibs_snoc (n : nat) : first_fibs (S n) = first_fibs n ++ [fib n].
Proof. unfold first_fibs. by rewrite seq_S, fmap_app. Qed.

Lemma first_fibs_length (n : nat) : length (first_fibs n) = n.
Proof. unfold first_fibs. by rewrite length_fmap, length_seq. Qed.

Lemma first_fibs_lookup (n i : nat) :
  (i < n)%nat -> first_fibs n !! i = Some (fib i).
Proof.
  intros Hi. unfold first_fibs. rewrite list_lookup_fmap.
  by rewrite lookup_seq_lt.
Qed.

Lemma first_fibs_prefix (m n : nat) :
  (m <= n)%nat -> first_fibs m `prefix_of` first_fibs n.
Proof.
  induction 1 as [|n Hmn IH]; [done|].
  rewrite first_fibs_snoc. by apply prefix_app_r.
Qed.

(** The loop, run [k] times from [[0; 1]], has built the first [2 + k]
    Fibonacci numbers. *)
Lemma fib_loop_first_fibs (k : nat) :
  for_each (py_range 2 (2 + Z.of_nat k)) [0; 1] = Some (first_fibs (2 + k)).
Proof.
  induction k as [|k IH].
  - by rewrite py_range_empty by lia.
  - replace (2 + Z.of_nat (S k)) with (2 + Z.of_nat k + 1) by lia.
    rewrite py_range_snoc, for_each_app, IH by lia. cbn [mbind option_bind for_each].
    destruct (loop_body_spec (first_fibs (2 + k)) (2 + Z.of_nat k))
      as (a & b & Ha & Hb & ->); [rewrite first_fibs_length; lia|lia|].
    cbn [mbind option_bind]. f_equal.
    replace (2 + S k)%nat with (S (2 + k)) by lia. rewrite first_fibs_snoc.
    rewrite first_fibs_lookup in Ha, Hb by lia.
    injection Ha as <-. injection Hb as <-. do 2 f_equal.
    replace (Z.to_nat (2 + Z.of_nat k - 1)) with (S k) by lia.
    replace (Z.to_nat (2 + Z.of_nat k - 2)) with k by lia.
    replace (2 + k)%nat with (S (S k)) by lia. by rewrite fib_step.
Qed.

Lemma fibonacci_first_fibs (n : Z) :
  fibonacci n = Some (first_fibs (Z.to_nat n)).
Proof.
  destruct (decide (n <= 0)) as [Hn|Hn].
  { rewrite fibonacci_neg by done. by replace (Z.to_nat n) with 0%nat by lia. }
  destruct (decide (n = 1)) as [->|]; [done|].
  destruct (decide (n = 2)) as [->|]; [done|].
  rewrite fibonacci_loop by lia.
  replace n with (2 + Z.of_nat (Z.to_nat (n - 2))) at 1 by lia.
  rewrite fib_loop_first_fibs. f_equal. f_equal. lia.
Qed.

(** X1: for every integer n, [fibonacci n] is the list of the first n
    Fibonacci numbers F(0), F(1), ..., F(n-1) (none when n <= 0), so that
    its element at index i is F(i). *)
Theorem fibonacci_is_fib_sequence (n : Z) :
  fibonacci n = Some (first_fibs (Z.to_nat n)) /\
  forall i, 0 <= i < n ->
    fibonacci n ≫= (fun l => py_index l i) = Some (fib (Z.to_nat i)).
Proof.
  split; [apply fibonacci_first_fibs|]. intros i Hi.
  rewrite fibonacci_first_fibs. cbn [mbind option_bind].
  rewrite py_index_nonneg by lia. apply first_fibs_lookup. lia.
Qed.

(** X2: whatever list [fibonacci] returns, its terms are non-negative and
    never decrease from one index to a later one. *)
Theorem fibonacci_terms_nonneg_sorted (n : Z) (l : list Z) :
  fibonacci n = Some l ->
  (forall x, x ∈ l -> 0 <= x) /\
  (forall (i j : nat) a b,
     (i <= j)%nat -> l !! i = Some a -> l !! j = Some b -> a <= b).
Proof.
  rewrite fibonacci_first_fibs. intros [= <-]. split.
  - intros x Hx. apply list_elem_of_lookup in Hx as [i Hi].
    pose proof (lookup_lt_Some _ _ _ Hi) as Hlt.
    rewrite first_fibs_length in Hlt.
    rewrite first_fibs_lookup in Hi by done. injection Hi as <-.
    apply fib_nonneg.
  - intros i j a b Hij Ha Hb.
    pose proof (lookup_lt_Some _ _ _ Hb) as Hlt.
    rewrite first_fibs_length in Hlt.
    rewrite first_fibs_lookup in Ha, Hb by lia.
    injection Ha as <-. injection Hb as <-. by apply fib_mono.
Qed.

Lemma fibonacci_terms_nonneg_sorted_witness :
  (forall x, x ∈ [0; 1; 1; 2; 3; 5] -> 0 <= x) /\
  (forall (i j : nat) a b,
     (i <= j)%nat -> [0; 1; 1; 2; 3; 5] !! i = Some a ->
     [0; 1; 1; 2; 3; 5] !! j = Some b -> a <= b).
Proof. apply (fibonacci_terms_nonneg_sorted 6). reflexivity. Defined.

(** X3: for all integers m <= n, negative ones included, the list returned
    for m is a prefix of the list returned for n: asking for more terms
    never changes the terms already given. *)
Theorem fibonacci_prefix_of_larger (m n : Z) :
  m <= n ->
  exists lm ln, fibonacci m = Some lm /\ fibonacci n = Some ln /\
                lm `prefix_of` ln.
Proof.
  intros Hmn. exists (first_fibs (Z.to_nat m)), (first_fibs (Z.to_nat n)).
  split; [apply fibonacci_first_fibs|]. split; [apply fibonacci_first_fibs|].
  apply first_fibs_prefix. lia.
Qed.

Lemma fibonacci_prefix_of_larger_witness :
  exists lm ln, fibonacci (-2) = Some lm /\ fibonacci 9 = Some ln /\
                lm `prefix_of` ln.
Proof. apply (fibonacci_prefix_of_larger (-2) 9). lia. Defined.

Local Open Scope string_scope.
Local Open Scope list_scope.

Lemma fits_zero (limit : nat) : fits limit 0 = true.
Proof.
  unfold fits. apply orb_true_iff. right. apply Z.ltb_lt. simpl.
  apply Z.pow_pos_nonneg; lia.
Qed.

Lemma fits_smaller (limit : nat) (a b : Z) :
  0 <= a <= b -> fits limit b = true -> fits limit a = true.
Proof.
  unfold fits. intros Hab. rewrite !orb_true_iff, !Z.ltb_lt.
  intros [H|H]; [by left|right].
  rewrite Z.abs_eq in H by lia. rewrite Z.abs_eq by lia. lia.
Qed.

Lemma fib_from_spec (k j : nat) :
  fib_from k (fib j) (fib (S j)) = fib (k + j).
Proof.
  revert j. induction k as [|k IH]; intros j; [done|].
  cbn [fib_from]. rewrite (Z.add_comm (fib j)), <- fib_step, IH.
  f_equal. lia.
Qed.

Lemma fib_from_start (k : nat) : fib k = fib_from k 0 1.
Proof.
  change (fib_from k 0 1) with (fib_from k (fib 0) (fib 1)).
  rewrite fib_from_spec. f_equal. lia.
Qed.

(** The terms never decrease, so the whole list can be turned into text as
    soon as its last term can. *)
Lemma fits_first_fibs (limit n : nat) :
  forallb (fits limit) (first_fibs n) = fits limit (fib (n - 1)).
Proof.
  destruct (fits limit (fib (n - 1))) eqn:E.
  - apply forallb_forall. intros x Hx. apply list_elem_of_In in Hx.
    apply list_elem_of_lookup in Hx as [i Hi].
    pose proof (lookup_lt_Some _ _ _ Hi) as Hlt.
    rewrite first_fibs_length in Hlt.
    rewrite first_fibs_lookup in Hi by done. injection Hi as <-.
    apply (fits_smaller limit _ (fib (n - 1))); [|done].
    split; [apply fib_nonneg|apply fib_mono; lia].
  - apply not_true_is_false. intros Hall. destruct n as [|n].
    + simpl in E. by rewrite fits_zero in E.
    + rewrite forallb_forall in Hall.
      rewrite (Hall (fib (S n - 1))) in E; [done|].
      apply list_elem_of_In, list_elem_of_lookup. exists (S n - 1)%nat.
      apply first_fibs_lookup. lia.
Qed.

Local Open Scope string_scope.
Local Open Scope list_scope.

(** X4: when the line typed at the prompt parses as an integer n >= 0, and n
    and the largest term F(n-1) are short enough to be turned into text (at
    most [max_str_digits] digits, or no limit), [main] prints the banner, the
    prompt, the heading "First n Fibonacci numbers:" (after a line break)
    and the list of the first n Fibonacci numbers in Python's list notation,
    and ends normally. *)
Theorem main_prints_sequence
    (max_str_digits : nat) (py_int : string -> option Z) (line : string)
    (n : Z) :
  py_int line = Some n -> 0 <= n ->
  fits max_str_digits n = true ->
  fits max_str_digits (fib (Z.to_nat n - 1)) = true ->
  main max_str_digits py_int (Some line) =
  (banner ++ [prompt; msg_first n; py_repr_list (first_fibs (Z.to_nat n))],
   None).
Proof.
  intros Hline Hn Hfit Hlast. unfold main. rewrite Hline.
  destruct (Z.ltb_spec n 0) as [?|_]; [lia|].
  rewrite fibonacci_first_fibs. unfold str_checked, repr_list_checked.
  rewrite Hfit, fits_first_fibs, Hlast. by rewrite <- app_assoc.
Qed.

Lemma main_prints_sequence_witness :
  main 4300 decimal_int (Some "5") =
  (banner ++ [prompt; msg_first 5; py_repr_list (first_fibs (Z.to_nat 5))],
   None).
Proof.
  apply (main_prints_sequence 4300 decimal_int "5" 5);
    [reflexivity|lia|by vm_compute|by vm_compute].
Defined.

(** X19: when the line parses as an integer n >= 0 that can itself be turned
    into text, and the largest term F(n-1) has more than [max_str_digits]
    digits, [print(result)] raises ValueError after the heading is out:
    [main] prints the banner, the prompt, the heading and then "Please enter
    a valid integer.", and ends normally. *)
Theorem main_sequence_too_long
    (max_str_digits : nat) (py_int : string -> option Z) (line : string)
    (n : Z) :
  py_int line = Some n -> 0 <= n ->
  fits max_str_digits n = true ->
  fits max_str_digits (fib (Z.to_nat n - 1)) = false ->
  main max_str_digits py_int (Some line) =
  (banner ++ [prompt; msg_first n; msg_invalid], None).
Proof.
  intros Hline Hn Hfit Hlast. unfold main. rewrite Hline.
  destruct (Z.ltb_spec n 0) as [?|_]; [lia|].
  rewrite fibonacci_first_fibs. unfold str_checked, repr_list_checked.
  rewrite Hfit, fits_first_fibs, Hlast. by rewrite <- app_assoc.
Qed.

Lemma main_sequence_too_long_witness :
  main 640 decimal_int (Some "3066") =
  (banner ++ [prompt; msg_first 3066; msg_invalid], None).
Proof.
  apply (main_sequence_too_long 640 decimal_int "3066" 3066);
    [reflexivity|lia|by vm_compute|rewrite fib_from_start; by vm_compute].
Defined.

(** X5: whatever line is read, however [int] parses it and whatever the
    limit on numbers turned into text, [main] ends without an uncaught
    exception (the indexing inside [fibonacci] never fails, and every
    ValueError is caught). Its output is the banner and the prompt, followed
    by one rejection message, or by the heading and the sequence, or by the
    heading and "Please enter a valid integer.". *)
Theorem main_ends_normally
    (max_str_digits : nat) (py_int : string -> option Z) (line : string) :
  (main max_str_digits py_int (Some line)).2 = None /\
  exists rest,
    (main max_str_digits py_int (Some line)).1 = banner ++ [prompt] ++ rest /\
    (rest = [msg_invalid] \/ rest = [msg_negative] \/
     exists n, py_int line = Some n /\ 0 <= n /\
       (rest = [msg_first n; py_repr_list (first_fibs (Z.to_nat n))] \/
        rest = [msg_first n; msg_invalid])).
Proof.
  unfold main. destruct (py_int line) as [n|].
  - destruct (Z.ltb_spec n 0) as [Hneg|Hn].
    + split; [done|]. exists [msg_negative].
      split; [by rewrite <- app_assoc|]. right. by left.
    + rewrite fibonacci_first_fibs. unfold str_checked, repr_list_checked.
      destruct (fits max_str_digits n).
      * destruct (forallb _ _).
        -- split; [done|]. eexists. split; [by rewrite <- app_assoc|].
           right. right. exists n. split; [done|]. split; [done|]. by left.
        -- split; [done|]. eexists. split; [by rewrite <- app_assoc|].
           right. right. exists n. split; [done|]. split; [done|]. by right.
      * split; [done|]. exists [msg_invalid].
        split; [by rewrite <- app_assoc|]. by left.
  - split; [done|]. exists [msg_invalid].
    split; [by rewrite <- app_assoc|]. by left.
Qed.

End FibonacciMore.

(** ** What the two patterns match *)

Section PatternMore.
Import PyStr PyRe PyIO Shape Samples Layout.

Local Open Scope string_scope.
Local Open Scope list_scope.

Local Abbreviation msub :=
  (sub UpdateToolRegistryMocks.pattern UpdateToolRegistryMocks.replacer).
Local Abbreviation spaces := (Forall (fun c => is_space c = true)).

Lemma differs_Forall (c : N) (b : text) :
  Forall (fun d => d <> c) b <-> Forall (fun d => differs c d = true) b.
Proof.
  apply Forall_iff. intros d. unfold differs.
  rewrite negb_true_iff. by rewrite N.eqb_neq.
Qed.

Lemma until_intro (c : N) (b t : text) :
  b <> [] -> Forall (fun d => d <> c) b -> until c (b ++ c :: t) = Some (b, t).
Proof.
  intros Hb Hall. apply differs_Forall in Hall. unfold until.
  rewrite (span_app (differs c) b (c :: t) Hall).
  - by destruct b.
  - cbn [span]. unfold differs. by rewrite N.eqb_refl.
Qed.

Lemma use_match_intro (body rest : text) :
  body <> [] -> Forall (fun d => d <> cp ";") body ->
  use_match ((cps "use " ++ body ++ [cp ";"; LF]) ++ rest) =
  Some (cps "use " ++ body ++ [cp ";"], rest).
Proof.
  intros Hb Hall. unfold use_match.
  rewrite <- app_assoc, starts_with_app.
  change 4 with (length (cps "use ")). rewrite drop_app_length.
  rewrite <- app_assoc. cbn [app].
  rewrite (until_intro _ _ _ Hb Hall). by rewrite N.eqb_refl.
Qed.

(** X6: the pattern of [add_json_imports.py] matches at the start of a text
    exactly when the text opens with [use ], one or more characters other
    than a semicolon (line feeds allowed), a semicolon and a line feed; the
    match is that much and group 1 is the statement without the line feed. *)
Theorem use_pattern_matches (s : text) (len : nat) (g : groups) :
  match_here AddJsonImports.use_pattern s = Some (len, g) <->
  exists body rest,
    s = (cps "use " ++ body ++ [cp ";"; LF]) ++ rest /\
    body <> [] /\ Forall (fun d => d <> cp ";") body /\
    len = length (cps "use " ++ body ++ [cp ";"; LF]) /\
    g = [(1, cps "use " ++ body ++ [cp ";"])].
Proof.
  rewrite use_match_ok. split.
  - destruct (use_match s) as [[stmt rest]|] eqn:E; [|done].
    cbn [fmap option_fmap option_map]. intros H.
    assert (len = length s - length rest) as -> by congruence.
    assert (g = [(1, stmt)]) as -> by congruence.
    apply use_match_spec in E as (body & -> & -> & Hb & Hall).
    exists body, rest. split; [done|]. split; [done|]. split; [done|].
    split; [|done]. rewrite (length_app _ rest). lia.
  - intros (body & rest & -> & Hb & Hall & -> & ->).
    rewrite (use_match_intro _ _ Hb Hall). cbn [fmap option_fmap option_map].
    do 2 f_equal. rewrite (length_app _ rest). lia.
Qed.

Lemma after_last_none (c : N) (s : text) :
  after_last c s = None <-> Forall (fun d => d <> c) s.
Proof.
  induction s as [|d s IH]; [done|]. cbn [after_last].
  rewrite Forall_cons, <- IH. destruct (after_last c s) as [t|].
  - split; [done|]. by intros [_ ?].
  - destruct (N.eqb_spec d c) as [->|Hne].
    + split; [done|]. by intros [? _].
    + by split.
Qed.

Lemma after_last_intro (c : N) (ws indent : text) :
  Forall (fun d => d <> c) indent ->
  after_last c (ws ++ c :: indent) = Some indent.
Proof.
  intros Hi. induction ws as [|d ws IH]; cbn [app after_last].
  - apply after_last_none in Hi as ->. by rewrite N.eqb_refl.
  - by rewrite IH.
Qed.

Lemma after_last_clean (c : N) (ws indent : text) :
  after_last c ws = Some indent -> Forall (fun d => d <> c) indent.
Proof.
  revert indent. induction ws as [|d ws IH]; intros indent H; [done|].
  cbn [after_last] in H. destruct (after_last c ws) as [t|] eqn:E.
  - assert (t = indent) as -> by congruence. by apply IH.
  - destruct (d =? c)%N; [|done].
    assert (ws = indent) as <- by congruence. by apply after_last_none.
Qed.

Lemma mock_tail_intro (ws indent rest : text) :
  spaces ws -> spaces indent -> Forall (fun d => d <> LF) indent ->
  mock_tail (ws ++ LF :: indent ++ RB :: rest) = Some (indent, rest).
Proof.
  intros Hws Hi Hlf. unfold mock_tail.
  assert (span is_space (ws ++ LF :: indent ++ RB :: rest) =
          (ws ++ LF :: indent, RB :: rest)) as ->.
  { replace (ws ++ LF :: indent ++ RB :: rest)
      with ((ws ++ LF :: indent) ++ RB :: rest)
      by (by rewrite <- app_assoc).
    apply span_app; [|done].
    apply Forall_app. split; [done|]. by constructor. }
  cbn [fst snd]. change (RB =? RB)%N with true. cbv iota.
  by rewrite (after_last_intro _ _ _ Hlf).
Qed.

Lemma mock_tail_clean (t indent rest : text) :
  mock_tail t = Some (indent, rest) ->
  exists ws, t = ws ++ LF :: indent ++ RB :: rest /\
             spaces ws /\ spaces indent /\ Forall (fun d => d <> LF) indent.
Proof.
  unfold mock_tail. intros H.
  pose proof (span_eq is_space t) as Heq.
  pose proof (span_all is_space t) as Hall.
  destruct (span is_space t).2 as [|c rest']; [done|].
  destruct (N.eqb_spec c RB) as [->|]; [|done].
  destruct (after_last LF (span is_space t).1) as [ind|] eqn:E; [|done].
  assert (ind = indent /\ rest' = rest) as [-> ->] by (split; congruence).
  pose proof (after_last_clean _ _ _ E) as Hclean.
  apply after_last_spec in E as [ws1 E]. rewrite E in Heq, Hall.
  apply Forall_app in Hall as [Hws Hall].
  apply Forall_cons in Hall as [_ Hind].
  exists ws1. split; [|done]. rewrite <- Heq. by rewrite <- app_assoc.
Qed.

Lemma mock_head_spec (x : text) :
  mock_head x = true <-> exists body, x = mock_lit ++ body /\ body <> [].
Proof.
  unfold mock_head. rewrite andb_true_iff, Nat.ltb_lt. split.
  - intros [Hs Hlen]. apply starts_with_inv in Hs.
    exists (drop (length mock_lit) x). split; [done|].
    intros Hnil. rewrite Hnil, app_nil_r in Hs.
    apply (f_equal length) in Hs. lia.
  - intros (body & -> & Hb). split; [apply starts_with_app|].
    rewrite length_app. destruct body; [done|]. cbn [length]. lia.
Qed.

Lemma mock_match_intro (body ws indent rest : text) :
  body <> [] -> Forall (fun d => d <> RB) body ->
  spaces ws -> spaces indent -> Forall (fun d => d <> LF) indent ->
  mock_match (mock_lit ++ body ++ RB :: ws ++ LF :: indent ++ RB :: rest) =
  Some (mock_lit ++ body ++ [RB], indent, rest).
Proof.
  intros Hb Hall Hws Hi Hlf.
  replace (mock_lit ++ body ++ RB :: ws ++ LF :: indent ++ RB :: rest)
    with ((mock_lit ++ body) ++ RB :: ws ++ LF :: indent ++ RB :: rest)
    by (by rewrite <- app_assoc).
  rewrite mock_match_chunk.
  - rewrite (proj2 (mock_head_spec _)) by eauto.
    rewrite (mock_tail_intro _ _ _ Hws Hi Hlf).
    cbn [fmap option_fmap option_map]. by rewrite <- app_assoc.
  - apply Forall_app. split; [apply mock_lit_no_RB|]. by apply differs_Forall.
Qed.

Lemma mock_match_clean (s method indent rest : text) :
  mock_match s = Some (method, indent, rest) ->
  exists body ws,
    s = mock_lit ++ body ++ RB :: ws ++ LF :: indent ++ RB :: rest /\
    method = mock_lit ++ body ++ [RB] /\
    body <> [] /\ Forall (fun d => d <> RB) body /\
    spaces ws /\ spaces indent /\ Forall (fun d => d <> LF) indent.
Proof.
  unfold mock_match. intros H.
  pose proof (span_eq (differs RB) s) as Heq.
  pose proof (span_all (differs RB) s) as Hall.
  destruct (span (differs RB) s).2 as [|e t] eqn:E2; [done|].
  apply span_stop in E2. unfold differs in E2.
  apply negb_false_iff, N.eqb_eq in E2 as ->.
  destruct (mock_head (span (differs RB) s).1) eqn:Hh; [|done].
  destruct (mock_tail t) as [[ind rest']|] eqn:Ht; [|done].
  apply mock_head_spec in Hh as (body & Hx & Hb). rewrite Hx in *.
  assert (method = (mock_lit ++ body) ++ [RB] /\ ind = indent /\ rest' = rest)
    as (-> & -> & ->) by (repeat split; congruence).
  apply mock_tail_clean in Ht as (ws & -> & Hws & Hi & Hlf).
  exists body, ws. split; [by rewrite <- Heq, <- app_assoc|].
  split; [by rewrite <- app_assoc|]. split; [done|].
  split; [|done]. apply Forall_app in Hall as [_ Hall].
  by apply differs_Forall.
Qed.

(** X9: the pattern of [update_tool_registry_mocks.py] matches at the start
    of a text exactly when the text opens with [fn get_active_tools(&self],
    goes on with one or more characters up to the first closing brace, then
    has white space, a line feed, white space without a line feed, and a
    closing brace. Group 1 runs to the first closing brace; group 2 is the
    white space after the last line feed. *)
Theorem mock_pattern_matches (s : text) (len : nat) (g : groups) :
  match_here UpdateToolRegistryMocks.pattern s = Some (len, g) <->
  exists body ws indent rest,
    s = cps "fn get_active_tools(&self" ++ body ++
        cp "}" :: ws ++ LF :: indent ++ cp "}" :: rest /\
    body <> [] /\ Forall (fun d => d <> cp "}") body /\
    Forall (fun c => is_space c = true) ws /\
    Forall (fun c => is_space c = true) indent /\
    Forall (fun d => d <> LF) indent /\
    len = length s - length rest /\
    g = [(2, indent); (1, cps "fn get_active_tools(&self" ++ body ++ [cp "}"])].
Proof.
  change (cps "fn get_active_tools(&self") with mock_lit.
  change (cp "}") with RB. rewrite mock_match_ok. split.
  - destruct (mock_match s) as [[[method indent] rest]|] eqn:E; [|done].
    cbn [fmap option_fmap option_map]. intros H.
    assert (len = length s - length rest) as -> by congruence.
    assert (g = [(2, indent); (1, method)]) as -> by congruence.
    apply mock_match_clean in E
      as (body & ws & Hs & -> & Hb & Hall & Hws & Hi & Hlf).
    by exists body, ws, indent, rest.
  - intros (body & ws & indent & rest & Hs & Hb & Hall & Hws & Hi & Hlf & -> & ->).
    rewrite Hs at 1. by rewrite (mock_match_intro _ _ _ _ Hb Hall Hws Hi Hlf).
Qed.

Lemma has_head_unfold (x : text) :
  has_head x =
  mock_head x || match x with [] => false | _ :: x' => has_head x' end.
Proof. by destruct x. Qed.

Lemma has_head_intro (pre body : text) :
  body <> [] -> has_head (pre ++ mock_lit ++ body) = true.
Proof.
  intros Hb. induction pre as [|c pre IH].
  - cbn [app]. rewrite has_head_unfold.
    by rewrite (proj2 (mock_head_spec (mock_lit ++ body))) by eauto.
  - cbn [app has_head]. by rewrite IH, orb_true_r.
Qed.

(** X10: take a text with no closing brace before a [get_active_tools]
    method whose text up to its first closing brace is [body], followed by
    white space [ws], a line feed, an indentation and a closing brace. The
    substitution keeps everything up to the method's closing brace, puts a
    line feed, TOOL_SCHEMA_METHOD, a line feed and the indentation before
    the outer closing brace, drops [ws], and goes on with the rest. *)
Theorem substitution_injects_method (pre body ws indent post : text) :
  Forall (fun d => d <> cp "}") pre -> Forall (fun d => d <> cp "}") body ->
  body <> [] ->
  Forall (fun c => is_space c = true) ws ->
  Forall (fun c => is_space c = true) indent ->
  Forall (fun d => d <> LF) indent ->
  msub (pre ++ cps "fn get_active_tools(&self" ++ body ++ [cp "}"] ++
        ws ++ [LF] ++ indent ++ [cp "}"] ++ post) =
  pre ++ cps "fn get_active_tools(&self" ++ body ++ [cp "}"] ++
  [LF] ++ UpdateToolRegistryMocks.TOOL_SCHEMA_METHOD ++ [LF] ++
  indent ++ [cp "}"] ++ msub post.
Proof.
  change (cps "fn get_active_tools(&self") with mock_lit.
  change (cp "}") with RB. intros Hpre Hbody Hb Hws Hi Hlf.
  assert (forall v w : text,
            pre ++ mock_lit ++ body ++ [RB] ++ v ++ w =
            (pre ++ mock_lit ++ body) ++ RB :: v ++ w) as Hshape.
  { intros v w. by rewrite <- !app_assoc. }
  rewrite (Hshape ws), msub_chunk.
  - rewrite (has_head_intro _ _ Hb).
    change ([LF] ++ indent ++ [RB] ++ post) with (LF :: indent ++ RB :: post).
    rewrite (mock_tail_intro _ _ _ Hws Hi Hlf). unfold injected.
    rewrite <- !app_assoc. cbn [app]. reflexivity.
  - apply Forall_app. split; [by apply differs_Forall|].
    apply Forall_app. split; [apply mock_lit_no_RB|by apply differs_Forall].
Qed.

Lemma substitution_injects_method_witness :
  msub ([] ++ cps "fn get_active_tools(&self" ++ cps ") { vec![] " ++ [cp "}"] ++
        cps "  " ++ [LF] ++ cps "    " ++ [cp "}"] ++ [LF]) =
  [] ++ cps "fn get_active_tools(&self" ++ cps ") { vec![] " ++ [cp "}"] ++
  [LF] ++ UpdateToolRegistryMocks.TOOL_SCHEMA_METHOD ++ [LF] ++
  cps "    " ++ [cp "}"] ++ msub [LF].
Proof.
  apply (substitution_injects_method [] (cps ") { vec![] ") (cps "  ")
           (cps "    ") [LF]).
  - constructor.
  - apply Forall_forall. intros d Hd ->. vm_compute in Hd.
    by repeat (apply elem_of_cons in Hd as [Hd|Hd]; [done|]);
      apply elem_of_nil in Hd.
  - done.
  - by repeat constructor.
  - by repeat constructor.
  - by repeat constructor.
Defined.

End PatternMore.

(** ** When each script writes *)

Section WritesMore.
Import PyStr PyRe PyIO Shape Samples Layout.

Local Open Scope string_scope.
Local Open Scope list_scope.

Local Abbreviation msub :=
  (sub UpdateToolRegistryMocks.pattern UpdateToolRegistryMocks.replacer).

(** A pattern that matches somewhere is found by the scan. *)
Lemma scan_nonempty (r : regex)
    (Hr : forall s len g, match_here r s = Some (len, g) -> 0 < len <= length s)
    (s : text) (j : nat) :
  match_here r (drop j s) <> None -> finditer r s <> [].
Proof.
  intros Hm Hnil. apply Hm. destruct (decide (j <= length s)) as [Hj|Hj].
  - apply (scan_last_none r Hr s 0 0 j); [|done].
    fold (finditer r s). rewrite Hnil. unfold scan_stop. simpl. lia.
  - rewrite drop_ge by lia. by apply match_here_nil.
Qed.

Lemma use_statement_found (c : text) :
  is_Some (last (finditer AddJsonImports.use_pattern c)) <-> has_use_statement c.
Proof.
  split.
  - intros [m Hm].
    pose proof (scan_bounds _ use_pattern_nonempty c 0 0 m
                  (last_Some_elem_of _ _ Hm)) as (_ & _ & Hmatch).
    rewrite Nat.sub_0_r, use_match_ok in Hmatch.
    destruct (use_match (drop (m_start m) c)) as [[stmt rest]|] eqn:E; [|done].
    apply use_match_spec in E as (body & Hdrop & _ & Hb & Hall).
    exists (take (m_start m) c), body, rest. split; [|done].
    by rewrite <- Hdrop, take_drop.
  - intros (pre & body & post & -> & Hb & Hall).
    destruct (last (finditer AddJsonImports.use_pattern
                      (pre ++ (cps "use " ++ body ++ [cp ";"; LF]) ++ post)))
      as [m|] eqn:E; [by eexists|].
    apply last_None in E. exfalso. revert E.
    apply (scan_nonempty _ use_pattern_nonempty _ (length pre)).
    by rewrite drop_app_length, use_match_ok, (use_match_intro _ _ Hb Hall).
Qed.

Lemma add_json_rewrite_iff (c : text) :
  is_Some (add_json_rewrite c) <->
  contains (cps "serde_json::json!") c = true /\
  contains (cps "use serde_json::json;") c = false /\
  has_use_statement c.
Proof.
  split.
  - intros [new H]. pose proof H as (Hmacro & Himp & m & Hm & _)%add_json_rewrite_cond.
    split; [done|]. split; [done|]. apply use_statement_found. by exists m.
  - intros (Hmacro & Himp & [m Hm]%use_statement_found).
    unfold add_json_rewrite. rewrite Hmacro, Himp, Hm. by eexists.
Qed.

(** X7: on a file that is read and written without error,
    [add_json_imports.py] writes exactly when the content holds
    [serde_json::json!], does not hold [use serde_json::json;], and holds a
    use statement followed by a line feed. *)
Theorem add_json_writes_exactly_when (w : world) (p : string) (f : file) :
  fs w !! p = Some f -> f_read_error f = None -> f_write_error f = None ->
  (writes (AddJsonImports.iteration p w).2 <> writes w <->
   contains (cps "serde_json::json!") (f_text f) = true /\
   contains (cps "use serde_json::json;") (f_text f) = false /\
   has_use_statement (f_text f)).
Proof.
  intros Hf Hr Hw. destruct (add_iteration_effect p w) as (_ & _ & ->).
  unfold writes_after, written. rewrite Hf, Hr, Hw.
  rewrite <- add_json_rewrite_iff.
  destruct (add_json_rewrite (f_text f)) as [new|]; split.
  - by eexists.
  - intros _ H. apply (f_equal length) in H. rewrite length_app in H.
    simpl in H. lia.
  - done.
  - by intros [? ?].
Qed.

Lemma add_json_writes_exactly_when_witness :
  writes (AddJsonImports.iteration "a.rs" (world_of [("a.rs", with_uses)])).2
    <> writes (world_of [("a.rs", with_uses)]) <->
  contains (cps "serde_json::json!") with_uses = true /\
  contains (cps "use serde_json::json;") with_uses = false /\
  has_use_statement with_uses.
Proof.
  apply (add_json_writes_exactly_when (world_of [("a.rs", with_uses)]) "a.rs"
           (File with_uses None None)); reflexivity.
Defined.

(** X8: when a file read without error holds [serde_json::json!], does not
    hold the import and has no use statement followed by a line feed,
    [add_json_imports.py] prints that it could not find use statements and
    writes nothing. *)
Theorem no_use_statement_reported (w : world) (p : string) (f : file) :
  fs w !! p = Some f -> f_read_error f = None ->
  contains (cps "serde_json::json!") (f_text f) = true ->
  contains (cps "use serde_json::json;") (f_text f) = false ->
  ~ has_use_statement (f_text f) ->
  AddJsonImports.iteration p w =
  (Ok tt,
   World (fs w) (stdout w ++ ["✗ Could not find use statements in " +:+ p])
     (writes w)).
Proof.
  intros Hf Hr Hmacro Himp Hno.
  unfold AddJsonImports.iteration, AddJsonImports.process,
    try_except, io_bind, read_text, write_text, print.
  rewrite Hf, Hr, Hmacro, Himp. cbn [orb negb].
  destruct (last (finditer AddJsonImports.use_pattern (f_text f))) as [m|] eqn:E;
    [|done].
  destruct Hno. apply use_statement_found. by exists m.
Qed.

Lemma no_use_statement_reported_witness :
  AddJsonImports.iteration "b.rs" (world_of [("b.rs", without_uses)]) =
  (Ok tt,
   World (fs (world_of [("b.rs", without_uses)]))
     (stdout (world_of [("b.rs", without_uses)]) ++
      ["✗ Could not find use statements in " +:+ "b.rs"])
     (writes (world_of [("b.rs", without_uses)]))).
Proof.
  apply (no_use_statement_reported (world_of [("b.rs", without_uses)]) "b.rs"
           (File without_uses None None)); try reflexivity.
  intros [m Hm]%use_statement_found. vm_compute in Hm. discriminate Hm.
Defined.

Lemma msub_no_lit (c : text) : contains mock_lit c = false -> msub c = c.
Proof.
  induction c as [|d c IH]; intros H; [done|].
  cbn [contains] in H. apply orb_false_iff in H as [Hd Hc].
  rewrite msub_cons_none, IH; [done|done|].
  destruct (mock_match (d :: c)) as [[[m i] r]|] eqn:E; [|done].
  apply mock_match_spec in E as (Hs & _). congruence.
Qed.

(** X11: a file read without error in which the text
    [fn get_active_tools(&self] does not occur is left as it is by the
    substitution; [update_tool_registry_mocks.py] prints its skip line for
    it and writes nothing. *)
Theorem file_without_mock_is_skipped (w : world) (p : string) (f : file) :
  fs w !! p = Some f -> f_read_error f = None ->
  contains (cps "fn get_active_tools(&self") (f_text f) = false ->
  msub (f_text f) = f_text f /\
  UpdateToolRegistryMocks.iteration p w =
  (Ok tt,
   World (fs w) (stdout w ++ ["- Skipped " +:+ p +:+ " (no changes needed)"])
     (writes w)).
Proof.
  intros Hf Hr Hno. pose proof (msub_no_lit _ Hno) as Heq. split; [done|].
  unfold UpdateToolRegistryMocks.iteration, UpdateToolRegistryMocks.process,
    try_except, io_bind, read_text, write_text, print.
  rewrite Hf, Hr. by destruct (decide _).
Qed.

Lemma file_without_mock_is_skipped_witness :
  msub no_mock = no_mock /\
  UpdateToolRegistryMocks.iteration "r.rs" (world_of [("r.rs", no_mock)]) =
  (Ok tt,
   World (fs (world_of [("r.rs", no_mock)]))
     (stdout (world_of [("r.rs", no_mock)]) ++
      ["- Skipped " +:+ "r.rs" +:+ " (no changes needed)"])
     (writes (world_of [("r.rs", no_mock)]))).
Proof.
  apply (file_without_mock_is_skipped (world_of [("r.rs", no_mock)]) "r.rs"
           (File no_mock None None)); reflexivity.
Defined.

(** Whenever the substitution changes a text, the method is in the result. *)
Lemma msub_changed (c : text) :
  msub c <> c ->
  contains UpdateToolRegistryMocks.TOOL_SCHEMA_METHOD (msub c) = true.
Proof.
  remember (length c) as n eqn:Hn. revert c Hn.
  induction n as [n IH] using lt_wf_ind. intros c -> Hne.
  destruct (chunk_split c) as [Hc | (x & t & -> & Hx)].
  { by rewrite (msub_no_RB _ Hc) in Hne. }
  rewrite (msub_chunk x t Hx) in Hne |- *.
  assert (msub t <> t ->
          contains UpdateToolRegistryMocks.TOOL_SCHEMA_METHOD
            (x ++ RB :: msub t) = true) as Hrec.
  { intros Ht. change (x ++ RB :: msub t) with (x ++ [RB] ++ msub t).
    rewrite app_assoc. apply contains_app_r.
    apply (IH (length t)); [rewrite length_app; simpl; lia|done|done]. }
  destruct (has_head x).
  - destruct (mock_tail t) as [[indent rest]|].
    + assert (x ++ RB :: injected indent ++ msub rest =
              (x ++ [RB; LF]) ++ UpdateToolRegistryMocks.TOOL_SCHEMA_METHOD ++
              ([LF] ++ indent ++ [RB]) ++ msub rest) as ->.
      { unfold injected. rewrite <- !app_assoc. cbn [app].
        rewrite <- ?app_assoc. reflexivity. }
      apply contains_middle.
    + apply Hrec. intros Ht. apply Hne. by rewrite Ht.
  - apply Hrec. intros Ht. apply Hne. by rewrite Ht.
Qed.

(** X12: whenever a turn of [update_tool_registry_mocks.py] writes, the
    content it writes holds TOOL_SCHEMA_METHOD, and that content is what
    the file at the path holds afterwards. *)
Theorem written_file_has_method (w : world) (p p' : string) (new : text) :
  writes (UpdateToolRegistryMocks.iteration p w).2 = writes w ++ [(p', new)] ->
  p' = p /\
  contains UpdateToolRegistryMocks.TOOL_SCHEMA_METHOD new = true /\
  f_text <$> fs (UpdateToolRegistryMocks.iteration p w).2 !! p = Some new.
Proof.
  destruct (mock_iteration_effect p w) as (_ & -> & ->).
  unfold fs_after, writes_after.
  destruct (written mock_rewrite p w) as [new'|] eqn:E.
  - intros H. apply app_inv_head in H.
    assert (p' = p /\ new' = new) as [-> ->] by (split; congruence).
    apply written_Some in E as (f & Hf & _ & _ & Hrw).
    apply mock_rewrite_cond in Hrw as (-> & Hne).
    split; [done|]. split; [by apply msub_changed|].
    by rewrite lookup_insert_eq.
  - intros H. apply (f_equal length) in H. rewrite length_app in H.
    simpl in H. lia.
Qed.

Lemma written_file_has_method_witness :
  "m.rs" = "m.rs" /\
  contains UpdateToolRegistryMocks.TOOL_SCHEMA_METHOD (msub half_done) = true /\
  f_text <$> fs (UpdateToolRegistryMocks.iteration "m.rs"
                   (world_of [("m.rs", half_done)])).2 !! "m.rs" =
    Some (msub half_done).
Proof.
  apply (written_file_has_method (world_of [("m.rs", half_done)]) "m.rs" "m.rs").
  vm_compute. reflexivity.
Defined.

End WritesMore.

(** ** The loops as a whole *)

Section LoopsMore.
Import PyStr PyRe PyIO Shape Samples Layout Outcome.

Local Open Scope string_scope.
Local Open Scope list_scope.

Local Abbreviation msub :=
  (sub UpdateToolRegistryMocks.pattern UpdateToolRegistryMocks.replacer).

(** *** Any loop whose turns rewrite files *)
Section RewritingMore.

Variable rewrite : text -> option text.
Variable iter : string -> IO unit.

Hypothesis Hfix : forall c new, rewrite c = Some new -> rewrite new = None.
Hypothesis Hiter : forall p w,
  (iter p w).1 = Ok tt /\
  fs (iter p w).2 = fs_after rewrite p w /\
  writes (iter p w).2 = writes_after rewrite p w.

(** The writes of a run: one at most for a path, at listed paths only, and
    none at a path where nothing was left to write. *)
Lemma run_writes ps w :
  exists l, writes (for_in ps iter w).2 = writes w ++ l /\
            NoDup l.*1 /\
            (forall q, q ∈ l.*1 -> q ∈ ps) /\
            (forall q, written rewrite q w = None -> q ∉ l.*1).
Proof.
  revert w. induction ps as [|p ps IH]; intros w.
  { exists []. rewrite app_nil_r. split; [done|]. split; [constructor|].
    cbn [fmap list_fmap]. split.
    - by intros q ?%elem_of_nil.
    - by intros q _ ?%elem_of_nil. }
  rewrite (for_in_cons _ _ Hiter).
  destruct (IH (iter p w).2) as (l1 & -> & Hnd & Hin & Hout).
  destruct (Hiter p w) as (_ & _ & ->). unfold writes_after.
  destruct (written rewrite p w) as [new|] eqn:E.
  - exists ((p, new) :: l1). rewrite <- app_assoc. split; [done|].
    cbn [fmap list_fmap fst]. split; [|split].
    + apply NoDup_cons. split; [|done].
      apply Hout, (iter_settles _ _ Hfix Hiter).
    + intros q [->|Hq]%elem_of_cons; [by left|]. right. by apply Hin.
    + intros q Hq [->|Hq']%elem_of_cons; [congruence|].
      by apply (Hout q (iter_keeps _ _ Hfix Hiter q p w Hq)).
  - exists l1. split; [done|]. split; [done|]. split.
    + intros q Hq. right. by apply Hin.
    + intros q Hq. by apply Hout, (iter_keeps _ _ Hfix Hiter).
Qed.

End RewritingMore.

(** *** Runs on stored files *)

Lemma disk_add_iteration_frame
    (resolve : string -> string) (linesep : text) (p : string) (w : world) :
  (OnDisk.add_json_iteration resolve linesep p w).1 = Ok tt /\
  (forall q, resolve p <> q ->
     fs (OnDisk.add_json_iteration resolve linesep p w).2 !! q = fs w !! q) /\
  dom (fs (OnDisk.add_json_iteration resolve linesep p w).2) = dom (fs w).
Proof.
  unfold OnDisk.add_json_iteration, OnDisk.add_json_process,
    try_except, io_bind, OnDisk.open_read, OnDisk.open_write, print.
  destruct (fs w !! resolve p) as [f|] eqn:E; [|done].
  destruct (f_read_error f) as [er|] eqn:Er; [done|].
  destruct (contains _ _ || negb (contains _ _)); [done|].
  destruct (last _) as [m|]; [|done].
  rewrite E. destruct (f_write_error f) as [ew|]; [done|].
  cbn [fst snd fs]. split; [done|]. split.
  - intros q Hq. by apply lookup_insert_ne.
  - by apply dom_insert_lookup_L.
Qed.

Lemma disk_mocks_iteration_frame
    (resolve : string -> string) (linesep : text) (p : string) (w : world) :
  (OnDisk.mocks_iteration resolve linesep p w).1 = Ok tt /\
  (forall q, resolve p <> q ->
     fs (OnDisk.mocks_iteration resolve linesep p w).2 !! q = fs w !! q) /\
  dom (fs (OnDisk.mocks_iteration resolve linesep p w).2) = dom (fs w).
Proof.
  unfold OnDisk.mocks_iteration, OnDisk.mocks_process,
    try_except, io_bind, OnDisk.open_read, OnDisk.open_write, print.
  destruct (fs w !! resolve p) as [f|] eqn:E; [|done].
  destruct (f_read_error f) as [er|] eqn:Er; [by destruct er|].
  destruct (decide _); [done|].
  rewrite E. destruct (f_write_error f) as [ew|]; [by destruct ew|].
  cbn [fst snd fs]. split; [done|]. split.
  - intros q Hq. by apply lookup_insert_ne.
  - by apply dom_insert_lookup_L.
Qed.

(** Any loop whose turns never raise and change no file but the one their
    path leads to. *)
Section DiskRuns.

Variable resolve : string -> string.
Variable iter : string -> IO unit.

Hypothesis Hframe : forall p w,
  (iter p w).1 = Ok tt /\
  (forall q, resolve p <> q -> fs (iter p w).2 !! q = fs w !! q) /\
  dom (fs (iter p w).2) = dom (fs w).

Lemma for_in_step p ps w :
  for_in (p :: ps) iter w = for_in ps iter (iter p w).2.
Proof.
  cbn [for_in]. unfold io_bind. destruct (Hframe p w) as (Hok & _).
  by destruct (iter p w) as [[[]|e] w'].
Qed.

Lemma disk_run_other ps q w :
  (forall p, p ∈ ps -> resolve p <> q) ->
  fs (for_in ps iter w).2 !! q = fs w !! q.
Proof.
  revert w. induction ps as [|p ps IH]; intros w Hq; [done|].
  rewrite for_in_step, IH.
  - apply Hframe, Hq. by left.
  - intros p' Hp'. apply Hq. by right.
Qed.

Lemma disk_run_dom ps w : dom (fs (for_in ps iter w).2) = dom (fs w).
Proof.
  revert w. induction ps as [|p ps IH]; intros w; [done|].
  rewrite for_in_step, IH. apply Hframe.
Qed.

End DiskRuns.

(** X15: wherever the listed paths lead and whatever the line separator, a
    run of either loop over any list of paths leaves every stored file that
    no path of the list leads to exactly as it was, and neither creates nor
    removes a file. *)
Theorem runs_touch_listed_files_only
    (resolve : string -> string) (linesep : text)
    (ps : list string) (w : world) :
  (forall q, (forall p, p ∈ ps -> resolve p <> q) ->
     fs (OnDisk.add_json_run_on resolve linesep ps w).2 !! q = fs w !! q /\
     fs (OnDisk.mocks_run_on resolve linesep ps w).2 !! q = fs w !! q) /\
  dom (fs (OnDisk.add_json_run_on resolve linesep ps w).2) = dom (fs w) /\
  dom (fs (OnDisk.mocks_run_on resolve linesep ps w).2) = dom (fs w).
Proof.
  unfold OnDisk.add_json_run_on, OnDisk.mocks_run_on.
  split; [intros q Hq; split|split].
  - by apply (disk_run_other resolve _ (disk_add_iteration_frame resolve linesep)).
  - by apply (disk_run_other resolve _
                (disk_mocks_iteration_frame resolve linesep)).
  - apply (disk_run_dom resolve _ (disk_add_iteration_frame resolve linesep)).
  - apply (disk_run_dom resolve _ (disk_mocks_iteration_frame resolve linesep)).
Qed.

Lemma runs_touch_listed_files_only_witness :
  fs (OnDisk.add_json_run_on OnDisk.link_to_a [LF] ["link.rs"]
        (world_of [("a.rs", with_uses); ("m.rs", half_done)])).2 !! "m.rs" =
    fs (world_of [("a.rs", with_uses); ("m.rs", half_done)]) !! "m.rs" /\
  fs (OnDisk.mocks_run_on OnDisk.link_to_a [LF] ["link.rs"]
        (world_of [("a.rs", with_uses); ("m.rs", half_done)])).2 !! "m.rs" =
    fs (world_of [("a.rs", with_uses); ("m.rs", half_done)]) !! "m.rs".
Proof.
  apply (proj1 (runs_touch_listed_files_only OnDisk.link_to_a [LF] ["link.rs"]
                  (world_of [("a.rs", with_uses); ("m.rs", half_done)]))).
  intros p [->|H]%elem_of_cons; [|by apply elem_of_nil in H].
  intros H. vm_compute in H. discriminate H.
Defined.

(** A file under a path that is not in the list is changed all the same
    when a listed path, here a link, leads to it. *)
Example link_rewrites_its_target :
  f_text <$> fs (OnDisk.add_json_run_on OnDisk.link_to_a [LF] ["link.rs"]
                   (world_of [("a.rs", with_uses)])).2 !! "a.rs" =
    Some OnDisk.with_uses_imported.
Proof. by vm_compute. Qed.

(** X16: in a run of either loop, every write is at a path of the list, and
    no path is written twice, even when the list names it more than once. *)
Theorem one_write_per_path (ps : list string) (w : world) :
  (exists l, writes (AddJsonImports.run_on ps w).2 = writes w ++ l /\
             NoDup l.*1 /\ forall q, q ∈ l.*1 -> q ∈ ps) /\
  (exists l, writes (UpdateToolRegistryMocks.run_on ps w).2 = writes w ++ l /\
             NoDup l.*1 /\ forall q, q ∈ l.*1 -> q ∈ ps).
Proof.
  unfold AddJsonImports.run_on, UpdateToolRegistryMocks.run_on. split.
  - destruct (run_writes _ _ add_json_rewrite_fix add_iteration_effect ps w)
      as (l & H1 & H2 & H3 & _). by exists l.
  - destruct (run_writes _ _ mock_rewrite_fix mock_iteration_effect ps w)
      as (l & H1 & H2 & H3 & _). by exists l.
Qed.

Lemma add_iteration_line (p : string) (w : world) :
  exists line, stdout (AddJsonImports.iteration p w).2 = stdout w ++ [line] /\
               add_json_line p line.
Proof.
  unfold add_json_line, AddJsonImports.iteration, AddJsonImports.process,
    try_except, io_bind, read_text, write_text, print.
  destruct (fs w !! p) as [f|] eqn:E; [|by eexists; split; [|do 3 right; eexists]].
  destruct (f_read_error f) as [er|] eqn:Er;
    [by eexists; split; [|do 3 right; eexists]|].
  destruct (contains _ _ || negb (contains _ _));
    [by eexists; split; [|left]|].
  destruct (last _) as [m|]; [|by eexists; split; [|do 2 right; left]].
  rewrite E. destruct (f_write_error f) as [ew|].
  - by eexists; split; [|do 3 right; eexists].
  - by eexists; split; [|right; left].
Qed.

Lemma mock_iteration_line (p : string) (w : world) :
  exists line,
    stdout (UpdateToolRegistryMocks.iteration p w).2 = stdout w ++ [line] /\
    mock_update_line p line.
Proof.
  unfold mock_update_line, UpdateToolRegistryMocks.iteration,
    UpdateToolRegistryMocks.process,
    try_except, io_bind, read_text, write_text, print.
  destruct (fs w !! p) as [f|] eqn:E; [|by eexists; split; [|do 2 right; left]].
  destruct (f_read_error f) as [er|] eqn:Er.
  { destruct er; eexists; (split; [done|]);
      first [by do 2 right; left | by do 3 right; eexists]. }
  destruct (decide _); [by eexists; split; [|right; left]|].
  rewrite E. destruct (f_write_error f) as [ew|].
  - destruct ew; eexists; (split; [done|]);
      first [by do 2 right; left | by do 3 right; eexists].
  - by eexists; split; [|left].
Qed.

(** X14: a run of either loop prints exactly one line for each path of the
    list, in the order of the list and after what was printed before; the
    line for a path is one of that script's success, skip or error lines
    for that path. *)
Theorem one_line_per_path (ps : list string) (w : world) :
  (exists lines,
     stdout (AddJsonImports.run_on ps w).2 = stdout w ++ lines /\
     Forall2 add_json_line ps lines) /\
  (exists lines,
     stdout (UpdateToolRegistryMocks.run_on ps w).2 = stdout w ++ lines /\
     Forall2 mock_update_line ps lines).
Proof.
  unfold AddJsonImports.run_on, UpdateToolRegistryMocks.run_on. split.
  - revert w. induction ps as [|p ps IH]; intros w.
    { exists []. by rewrite app_nil_r. }
    rewrite (for_in_cons _ _ add_iteration_effect).
    destruct (IH (AddJsonImports.iteration p w).2) as (lines & -> & Hl).
    destruct (add_iteration_line p w) as (line & -> & Hline).
    exists (line :: lines). rewrite <- app_assoc. split; [done|].
    by constructor.
  - revert w. induction ps as [|p ps IH]; intros w.
    { exists []. by rewrite app_nil_r. }
    rewrite (for_in_cons _ _ mock_iteration_effect).
    destruct (IH (UpdateToolRegistryMocks.iteration p w).2) as (lines & -> & Hl).
    destruct (mock_iteration_line p w) as (line & -> & Hline).
    exists (line :: lines). rewrite <- app_assoc. split; [done|].
    by constructor.
Qed.

End LoopsMore.

(** ** What is left to do after a run *)

Section SettledMore.
Import PyStr PyRe PyIO Shape Samples Layout Outcome.

Local Open Scope string_scope.
Local Open Scope list_scope.

Local Abbreviation msub :=
  (sub UpdateToolRegistryMocks.pattern UpdateToolRegistryMocks.replacer).
Local Abbreviation no_RB := (Forall (fun c => differs RB c = true)).

Lemma has_head_suffix (x : text) : forall j,
  mock_head (drop j x) = true -> has_head x = true.
Proof.
  induction x as [|c x IH]; intros j H.
  - by rewrite drop_nil in H.
  - rewrite has_head_unfold. destruct j as [|j].
    + cbn [drop] in H. by rewrite H.
    + cbn [drop] in H. by rewrite (IH j H), orb_true_r.
Qed.

(** A text the substitution gives back holds no match. *)
Lemma msub_fixed_no_match (c : text) :
  msub c = c -> forall j, mock_match (drop j c) = None.
Proof.
  remember (length c) as n eqn:Hn. revert c Hn.
  induction n as [n IH] using lt_wf_ind. intros c -> Hfix j.
  destruct (chunk_split c) as [Hc | (x & t & -> & Hx)].
  { apply mock_match_no_RB. by apply Forall_drop. }
  rewrite (msub_chunk x t Hx) in Hfix.
  apply app_inv_head, (f_equal tail) in Hfix. cbn [tail] in Hfix.
  assert (msub t = t /\ (has_head x = true -> mock_tail t = None)) as [Ht Hnone].
  { destruct (has_head x) eqn:Hh; [|done].
    destruct (mock_tail t) as [[indent rest]|] eqn:E; [|done].
    pose proof (mock_tail_injected indent (msub rest)) as Hinj.
    rewrite Hfix, E in Hinj. done. }
  destruct (decide (j <= length x)) as [Hj|Hj].
  - rewrite drop_app_le by done.
    rewrite mock_match_chunk by (by apply Forall_drop).
    destruct (mock_head (drop j x)) eqn:Hh; [|done].
    by rewrite (Hnone (has_head_suffix _ _ Hh)).
  - rewrite drop_app_ge by lia.
    replace (j - length x) with (S (j - length x - 1)) by lia. cbn [drop].
    apply (IH (length t)); [rewrite length_app; simpl; lia|done|done].
Qed.

Lemma no_match_msub_fixed (c : text) :
  (forall j, mock_match (drop j c) = None) -> msub c = c.
Proof.
  induction c as [|d c IH]; intros H; [done|].
  rewrite msub_cons_none by apply (H 0). f_equal.
  apply IH. intros j. apply (H (S j)).
Qed.

Lemma match_somewhere_dec (c : text) :
  (forall j, mock_match (drop j c) = None) \/
  (exists j, mock_match (drop j c) <> None).
Proof.
  induction c as [|d c [IH|[j IH]]].
  - left. intros j. by rewrite drop_nil.
  - destruct (mock_match (d :: c)) as [r|] eqn:E.
    + right. exists 0. cbn [drop]. by rewrite E.
    + left. intros [|j]; [done|apply IH].
  - right. by exists (S j).
Qed.

Lemma open_mock_found (c : text) :
  has_open_mock c <-> exists j, mock_match (drop j c) <> None.
Proof.
  unfold has_open_mock. change (cps "fn get_active_tools(&self") with mock_lit.
  change (cp "}") with RB. split.
  - intros (pre & body & ws & indent & post & -> & Hb & Hall & Hws & Hi & Hlf).
    exists (length pre). rewrite drop_app_length.
    by rewrite (mock_match_intro _ _ _ _ Hb Hall Hws Hi Hlf).
  - intros [j Hj].
    destruct (mock_match (drop j c)) as [[[method indent] rest]|] eqn:E; [|done].
    apply mock_match_clean in E
      as (body & ws & Hdrop & _ & Hb & Hall & Hws & Hi & Hlf).
    exists (take j c), body, ws, indent, rest. split; [|done].
    by rewrite <- Hdrop, take_drop.
Qed.

Lemma mock_rewrite_iff (c : text) :
  is_Some (mock_rewrite c) <-> has_open_mock c.
Proof.
  rewrite open_mock_found. unfold mock_rewrite.
  destruct (decide (msub c = c)) as [Heq|Hne]; split.
  - by intros [? ?].
  - intros [j Hj]. destruct Hj. by apply msub_fixed_no_match.
  - intros _. destruct (match_somewhere_dec c) as [Hnone|Hsome]; [|done].
    destruct Hne. by apply no_match_msub_fixed.
  - by eexists.
Qed.

(** X13: on a file that is read and written without error,
    [update_tool_registry_mocks.py] writes exactly when the pattern matches
    somewhere in the content, that is, when the content holds a
    [get_active_tools] method followed, after its first closing brace and
    white space with a line feed, by a closing brace. *)
Theorem mocks_written_exactly_when (w : world) (p : string) (f : file) :
  fs w !! p = Some f -> f_read_error f = None -> f_write_error f = None ->
  (writes (UpdateToolRegistryMocks.iteration p w).2 <> writes w <->
   has_open_mock (f_text f)).
Proof.
  intros Hf Hr Hw. destruct (mock_iteration_effect p w) as (_ & _ & ->).
  unfold writes_after, written. rewrite Hf, Hr, Hw.
  rewrite <- mock_rewrite_iff.
  destruct (mock_rewrite (f_text f)) as [new|]; split.
  - by eexists.
  - intros _ H. apply (f_equal length) in H. rewrite length_app in H.
    simpl in H. lia.
  - done.
  - by intros [? ?].
Qed.

Lemma mocks_written_exactly_when_witness :
  writes (UpdateToolRegistryMocks.iteration "m.rs"
            (world_of [("m.rs", half_done)])).2
    <> writes (world_of [("m.rs", half_done)]) <->
  has_open_mock half_done.
Proof.
  apply (mocks_written_exactly_when (world_of [("m.rs", half_done)]) "m.rs"
           (File half_done None None)); reflexivity.
Defined.

(** X17: after a run of [add_json_imports.py], every listed file that is
    read and written without error, holds [serde_json::json!] and holds a
    use statement followed by a line feed also holds
    [use serde_json::json;]. *)
Theorem after_add_json_run_imports_present
    (ps : list string) (w : world) (p : string) (f : file) :
  p ∈ ps -> fs (AddJsonImports.run_on ps w).2 !! p = Some f ->
  f_read_error f = None -> f_write_error f = None ->
  contains (cps "serde_json::json!") (f_text f) = true ->
  has_use_statement (f_text f) ->
  contains (cps "use serde_json::json;") (f_text f) = true.
Proof.
  intros Hp Hf Hr Hw Hmacro Huse.
  pose proof (run_settles _ _ add_json_rewrite_fix add_iteration_effect
                ps w p Hp) as Hset.
  unfold AddJsonImports.run_on in Hf. unfold written in Hset.
  rewrite Hf, Hr, Hw in Hset.
  destruct (contains (cps "use serde_json::json;") (f_text f)) eqn:Himp; [done|].
  assert (is_Some (add_json_rewrite (f_text f))) as [new Hnew]
    by (by apply add_json_rewrite_iff).
  congruence.
Qed.

Lemma after_add_json_run_imports_present_witness :
  contains (cps "use serde_json::json;")
    (default [] (add_json_rewrite with_uses)) = true.
Proof.
  apply (after_add_json_run_imports_present ["a.rs"]
           (world_of [("a.rs", with_uses)]) "a.rs"
           (File (default [] (add_json_rewrite with_uses)) None None)).
  - by left.
  - vm_compute. reflexivity.
  - reflexivity.
  - reflexivity.
  - vm_compute. reflexivity.
  - apply use_statement_found. vm_compute. by eexists.
Defined.

(** X18: after a run of [update_tool_registry_mocks.py], in every listed
    file that is read and written without error the pattern matches
    nowhere: no [get_active_tools] method is left in front of a closing
    brace without the injected method after it. *)
Theorem after_mocks_run_no_open_mock
    (ps : list string) (w : world) (p : string) (f : file) :
  p ∈ ps -> fs (UpdateToolRegistryMocks.run_on ps w).2 !! p = Some f ->
  f_read_error f = None -> f_write_error f = None ->
  ~ has_open_mock (f_text f) /\ msub (f_text f) = f_text f.
Proof.
  intros Hp Hf Hr Hw.
  pose proof (run_settles _ _ mock_rewrite_fix mock_iteration_effect
                ps w p Hp) as Hset.
  unfold UpdateToolRegistryMocks.run_on in Hf. unfold written in Hset.
  rewrite Hf, Hr, Hw in Hset. split.
  - intros [new Hnew]%mock_rewrite_iff. congruence.
  - unfold mock_rewrite in Hset. by destruct (decide (msub (f_text f) = f_text f)).
Qed.

Lemma after_mocks_run_no_open_mock_witness :
  ~ has_open_mock (f_text (File (msub half_done) None None)) /\
  msub (f_text (File (msub half_done) None None)) =
    f_text (File (msub half_done) None None).
Proof.
  apply (after_mocks_run_no_open_mock ["m.rs"]
           (world_of [("m.rs", half_done)]) "m.rs"
           (File (msub half_done) None None)).
  - by left.
  - vm_compute. reflexivity.
  - reflexivity.
  - reflexivity.
Defined.

End SettledMore.
